(** * Categories and products service: a shallow embedding

    The service keeps two tables, [categories] and [products], behind the
    [databases] query interface.  The controllers build SQLAlchemy
    statements and hand them to [db.fetch_all], [db.fetch_one] and
    [db.execute]; the routers turn store exceptions into HTTP errors.

    The development follows that layering:
    - Python values, mapping rows and exceptions;
    - a state-and-exception monad for the [async] functions;
    - the statements the controllers build, as a small syntax;
    - the [Database] interface, and the controllers and routers written
      against it (from [controllers/categories.py] and
      [routers/categories.py]);
    - a relational store implementing the interface, with the schema of
      the two tables;
    - the properties. *)

From Stdlib Require Import ZArith QArith Qminmax List String Ascii Bool Lia.
From Stdlib Require Import DecimalString.
From Stdlib Require Import Orders Sorting.Sorted Sorting.Permutation Sorting.Mergesort.
Import ListNotations.

Local Open Scope string_scope.
Local Open Scope list_scope.
Local Open Scope Z_scope.

(** ** Python values and rows *)

(** The values that travel between the handlers and the store.  A date is
    its proleptic ordinal ([date.toordinal()]): day granularity, no time
    component.  A price is an exact rational. *)
Inductive value : Type :=
| VNone
| VInt (z : Z)
| VReal (q : Q)
| VStr (s : string)
| VDate (d : Z).

(** A [databases] record, and a Python [dict] with string keys: a mapping
    from column name to value, in column order. *)
Definition Row : Type := list (string * value).

(** [r.get(key)] *)
Fixpoint get (r : Row) (key : string) : option value :=
  match r with
  | [] => None
  | (k, v) :: rest => if String.eqb k key then Some v else get rest key
  end.

(** [len(r)] and the truth value of an optional record: [None] is false,
    and a record is a sequence, true when it has at least one column. *)
Definition truthy (o : option Row) : bool :=
  match o with
  | None => false
  | Some r => negb (Nat.eqb (List.length r) 0)
  end.

Definition is_not_None {A : Type} (o : option A) : bool :=
  match o with
  | None => false
  | Some _ => true
  end.

(** ** Exceptions *)

Inductive exc_class : Type :=
| UniqueViolationError       (* asyncpg.exceptions *)
| ForeignKeyViolationError   (* asyncpg.exceptions *)
| IntegrityError             (* sqlite3 *)
| OperationalError           (* sqlite3 *)
| KeyError
| TypeError
| OtherError (name : string).

Definition exc_class_eqb (a b : exc_class) : bool :=
  match a, b with
  | UniqueViolationError, UniqueViolationError => true
  | ForeignKeyViolationError, ForeignKeyViolationError => true
  | IntegrityError, IntegrityError => true
  | OperationalError, OperationalError => true
  | KeyError, KeyError => true
  | TypeError, TypeError => true
  | OtherError n, OtherError m => String.eqb n m
  | _, _ => false
  end.

Inductive exception : Type :=
| HTTPException (status_code : Z) (detail : string)
| Exc (cls : exc_class) (msg : string).

Definition HTTP_200_OK : Z := 200.
Definition HTTP_400_BAD_REQUEST : Z := 400.
Definition HTTP_404_NOT_FOUND : Z := 404.

Definition str_of_Z (z : Z) : string := NilZero.string_of_int (Z.to_int z).

(** [str(e)]: the message of a store exception; Starlette prints an
    [HTTPException] as its status code, a colon and the detail. *)
Definition str (e : exception) : string :=
  match e with
  | HTTPException status_code detail => str_of_Z status_code ++ ": " ++ detail
  | Exc _ msg => msg
  end.

(** [isinstance(e, classes)] for the classes named in an [except] clause.
    None of the store exception classes derives from another one, and
    [HTTPException] derives from none of them. *)
Definition isinstance (e : exception) (classes : list exc_class) : bool :=
  match e with
  | HTTPException _ _ => false
  | Exc cls _ => existsb (exc_class_eqb cls) classes
  end.

(** ** Strings: [str.lower] and the [in] operator *)

Definition lower_char (c : ascii) : ascii :=
  let n := nat_of_ascii c in
  if (Nat.leb 65 n && Nat.leb n 90)%bool then ascii_of_nat (n + 32) else c.

(** [s.lower()] on the ASCII letters; other bytes are left as they are. *)
Fixpoint lower (s : string) : string :=
  match s with
  | EmptyString => EmptyString
  | String c rest => String (lower_char c) (lower rest)
  end.

(** [needle in hay] *)
Fixpoint contains (needle hay : string) : bool :=
  (String.prefix needle hay ||
   match hay with
   | EmptyString => false
   | String _ rest => contains needle rest
   end)%bool.

(** ** The monad of the handlers: store state and exceptions *)

Inductive result (A : Type) : Type :=
| Return (a : A)
| Raise (e : exception).
Arguments Return {A} a.
Arguments Raise {A} e.

Definition M (St A : Type) : Type := St -> result A * St.

Definition ret {St A : Type} (a : A) : M St A := fun s => (Return a, s).

Definition raise {St A : Type} (e : exception) : M St A := fun s => (Raise e, s).

Definition bind {St A B : Type} (m : M St A) (k : A -> M St B) : M St B :=
  fun s =>
    match m s with
    | (Return a, s') => k a s'
    | (Raise e, s') => (Raise e, s')
    end.

(** [try: body / except classes as e: handler(e)].  An exception that the
    clause does not name leaves the [try] statement as it came. *)
Definition try_except {St A : Type} (body : M St A)
    (catches : exception -> bool) (handler : exception -> M St A) : M St A :=
  fun s =>
    match body s with
    | (Return a, s') => (Return a, s')
    | (Raise e, s') => if catches e then handler e s' else (Raise e, s')
    end.

Declare Scope monad_scope.
Delimit Scope monad_scope with monad.
Notation "x <- m ;; k" := (bind m (fun x => k))
  (at level 61, m at next level, right associativity) : monad_scope.
Notation "m ;;; k" := (bind m (fun _ => k))
  (at level 61, right associativity) : monad_scope.
Local Open Scope monad_scope.

(** [r[key]]: a missing key raises [KeyError]. *)
Definition getitem {St : Type} (r : Row) (key : string) : M St value :=
  match get r key with
  | Some v => ret v
  | None => raise (Exc KeyError ("'" ++ key ++ "'"))
  end.

(** [o[key]] for the result of [fetch_one], a record or [None]. *)
Definition subscript {St : Type} (o : option Row) (key : string) : M St value :=
  match o with
  | Some r => getitem r key
  | None => raise (Exc TypeError "'NoneType' object is not subscriptable")
  end.

(** [except Exception]: every exception. *)
Definition any_exception (e : exception) : bool := true.

(** ** Statements *)

Inductive table : Type := categories | products.

(** [table.c.key] *)
Record column : Type := col { c_table : table; c_key : string }.

(** [column == literal] *)
Inductive clause : Type := eq_ (c : column) (v : value).

Inductive from_clause : Type :=
| FromTable (t : table)
| FromJoin.                (* products JOIN categories ON category_id = id *)

Record select_stmt : Type := mk_select {
  s_columns : option (list column);      (* [None]: every column *)
  s_from : from_clause;
  s_where : list clause;                 (* conjunction *)
  s_order_by : option (column * bool);   (* the flag: descending *)
  s_limit : option nat
}.

Inductive query : Type :=
| Select (s : select_stmt)
| Insert (t : table)
| Delete (t : table) (whereclause : list clause).

(** [table.select()] *)
Definition table_select (t : table) : query :=
  Select (mk_select None (FromTable t) [] None None).

(** [select(columns)]: the FROM list is the table of the columns. *)
Definition select (columns : list column) : query :=
  let t := match columns with
           | [] => categories
           | c :: _ => c_table c
           end in
  Select (mk_select (Some columns) (FromTable t) [] None None).

(** [table.insert()] and [table.delete()] *)
Definition table_insert (t : table) : query := Insert t.
Definition table_delete (t : table) : query := Delete t [].

(** [q.where(clause)]; an INSERT takes no WHERE. *)
Definition where_ (q : query) (cl : clause) : query :=
  match q with
  | Select s =>
      Select (mk_select (s_columns s) (s_from s) (s_where s ++ [cl])%list
                        (s_order_by s) (s_limit s))
  | Insert t => Insert t
  | Delete t w => Delete t (w ++ [cl])%list
  end.

(** [q.limit(n)] *)
Definition limit (q : query) (n : nat) : query :=
  match q with
  | Select s =>
      Select (mk_select (s_columns s) (s_from s) (s_where s)
                        (s_order_by s) (Some n))
  | _ => q
  end.

(** [q.order_by(column.desc())] and [q.order_by(column.asc())] *)
Definition order_by (q : query) (c : column) (descending : bool) : query :=
  match q with
  | Select s =>
      Select (mk_select (s_columns s) (s_from s) (s_where s)
                        (Some (c, descending)) (s_limit s))
  | _ => q
  end.

(** [q.select_from(products.join(categories))] *)
Definition select_from_join (q : query) : query :=
  match q with
  | Select s =>
      Select (mk_select (s_columns s) FromJoin (s_where s)
                        (s_order_by s) (s_limit s))
  | _ => q
  end.

(** ** The database interface *)

(** The three methods of [databases.Database] that the controllers call.
    Each may change the store and may raise. *)
Class Database (St : Type) : Type := {
  fetch_all : query -> M St (list Row);
  fetch_one : query -> M St (option Row);
  execute : query -> Row -> M St value
}.

(** The response of a handler that answers with a bare status. *)
Record Response : Type := mk_Response { response_status_code : Z }.

Section Handlers.

Context {St : Type} {db : Database St}.

(** *** controllers/categories.py *)

Definition read_categories : M St (list Row) :=
  let query := table_select categories in
  fetch_all query.

Definition write_category (name : string) : M St Row :=
  let query := table_insert categories in
  category_id <- execute query [("name", VStr name)] ;;
  let content := [("id", category_id); ("name", VStr name)] in
  ret content.

Definition read_category (name : string) : M St (option Row) :=
  let category_query :=
    where_ (table_select categories) (eq_ (col categories "name") (VStr name)) in
  fetch_one category_query.

Definition check_category_has_products (category_id : value) : M St bool :=
  let query :=
    limit (where_ (select [col products "id"])
                  (eq_ (col products "category_id") category_id)) 1 in
  result <- fetch_one query ;;
  ret (is_not_None result).

Definition purge_category (name : string) : M St unit :=
  let query :=
    where_ (table_delete categories) (eq_ (col categories "name") (VStr name)) in
  execute query [] ;;;
  ret tt.

(** *** routers/categories.py *)

Definition get_categories : M St (list Row) :=
  read_categories.

Definition add_category (name : string) : M St Row :=
  try_except (write_category name)
    (fun e => isinstance e [UniqueViolationError; IntegrityError])
    (fun e =>
       let error_str := lower (str e) in
       if (contains "unique" error_str || contains "constraint" error_str)%bool
       then raise (HTTPException HTTP_400_BAD_REQUEST "Category already exists")
       else raise e).

Definition delete_category (name : string) : M St Response :=
  check_category <- read_category name ;;
  if truthy check_category then
    category_id <- subscript check_category "id" ;;
    has_products <- check_category_has_products category_id ;;
    if has_products : bool then
      raise (HTTPException HTTP_400_BAD_REQUEST
                           "There are still products in the category")
    else
      try_except
        (purge_category name ;;;
         ret (mk_Response HTTP_200_OK))
        any_exception
        (fun e =>
           let error_str := lower (str e) in
           if (contains "foreign" error_str || contains "constraint" error_str)%bool
           then raise (HTTPException HTTP_400_BAD_REQUEST
                                     "There are still products in the category")
           else raise e)
  else raise (HTTPException HTTP_400_BAD_REQUEST "Category does not exist").

End Handlers.

(** ** Product operations *)

Section ProductOperations.

Context {St : Type} {db : Database St}.

(** The spec leaves open what a listing answers when [read_all] is false
    and neither filter is supplied: everything or nothing.  The choice is
    a parameter. *)
Variable unfiltered_returns_all : bool.

(** Modelled from the spec: the product controller and router are not
    among the sources.  Create(name, price, categoryName) resolves the
    category by name and fails with CategoryNotFound (status 404, detail
    as the tests read it) when there is none; otherwise it inserts the
    row with the resolved [category_id] and [created_at] the current
    date, and returns the created product with [category_id] and
    [category_name].  The current date is an input. *)
Definition product_create (today : Z) (name : string) (price : Q)
    (category_name : string) : M St Row :=
  category <- read_category category_name ;;
  match category with
  | None => raise (HTTPException HTTP_404_NOT_FOUND "Category does not exist")
  | Some cat =>
      category_id <- getitem cat "id" ;;
      resolved_name <- getitem cat "name" ;;
      product_id <- execute (table_insert products)
                      [("name", VStr name); ("price", VReal price);
                       ("category_id", category_id); ("created_at", VDate today)] ;;
      ret [("id", product_id); ("name", VStr name); ("price", VReal price);
           ("category_id", category_id); ("category_name", resolved_name);
           ("created_at", VDate today)]
  end.

(** Modelled from the spec: Delete(productId) deletes by id and fails
    with NotFound (status 404) if no row matched, verified by a prior
    existence check. *)
Definition product_delete (product_id : Z) : M St Response :=
  let by_id := eq_ (col products "id") (VInt product_id) in
  existing <- fetch_one (where_ (table_select products) by_id) ;;
  match existing with
  | None => raise (HTTPException HTTP_404_NOT_FOUND "Product does not exist")
  | Some _ =>
      execute (where_ (table_delete products) by_id) [] ;;;
      ret (mk_Response HTTP_200_OK)
  end.

Definition where_opt (q : query) (cl : option clause) : query :=
  match cl with
  | Some c => where_ q c
  | None => q
  end.

(** Modelled from the spec: List/Filter(readAll, categoryFilter?,
    dateFilter?, sortDescendingByPrice?).  With [read_all] every filter
    but the sorting is ignored; otherwise the rows match all supplied
    filters, the category by name through the join and the date by
    equality on [created_at].  Sorting, when requested, orders by
    [price], descending or ascending. *)
Definition product_list (read_all : bool) (select_by_category : option string)
    (select_by_date : option Z) (sorting_by_price_from_exp_to_cheap : option bool)
    : M St (list Row) :=
  let joined := select_from_join (table_select products) in
  let filtered :=
    if read_all then joined
    else where_opt
           (where_opt joined
              (option_map (fun n => eq_ (col categories "name") (VStr n))
                          select_by_category))
           (option_map (fun d => eq_ (col products "created_at") (VDate d))
                       select_by_date) in
  let sorted :=
    match sorting_by_price_from_exp_to_cheap with
    | Some descending => order_by filtered (col products "price") descending
    | None => filtered
    end in
  if (negb read_all && negb (is_not_None select_by_category)
      && negb (is_not_None select_by_date) && negb unfiltered_returns_all)%bool
  then ret []
  else fetch_all sorted.

End ProductOperations.

(** ** The relational store *)

(** The tests run the service on SQLite ([tests/conftest.py]), and the
    store follows that engine: a new row takes the next rowid, a statement
    that violates a constraint raises [sqlite3.IntegrityError] with
    SQLite's message and changes nothing, and foreign keys are enforced
    only when the pragma is on. *)

(** Modelled from the spec: the table declarations are not among the
    sources.  The persisted schema is two tables,
    [categories(id, name unique)] and
    [products(id, name, price, category_id fk->categories.id, created_at date)];
    every column is required and the ids are assigned by the store. *)
Record Category : Type := mk_Category {
  category_id : Z;
  category_name : string
}.

Record Product : Type := mk_Product {
  product_id : Z;
  product_name : string;
  product_price : Q;
  product_category_id : Z;
  product_created_at : Z
}.

(** The store: the two tables in insertion order, and whether the engine
    enforces foreign keys (SQLite does only under [PRAGMA foreign_keys]). *)
Record store : Type := mk_store {
  foreign_keys : bool;
  categories_rows : list Category;
  products_rows : list Product
}.

Definition empty_store (fk : bool) : store := mk_store fk [] [].

Definition category_row (c : Category) : Row :=
  [("id", VInt (category_id c)); ("name", VStr (category_name c))].

Definition product_row (p : Product) : Row :=
  [("id", VInt (product_id p)); ("name", VStr (product_name p));
   ("price", VReal (product_price p));
   ("category_id", VInt (product_category_id p));
   ("created_at", VDate (product_created_at p))].

(** The inner join: a product row extended with the name of its category. *)
Definition joined_rows (s : store) : list Row :=
  flat_map
    (fun p =>
       map (fun c => (product_row p ++ [("category_name", VStr (category_name c))])%list)
           (filter (fun c => category_id c =? product_category_id p)
                   (categories_rows s)))
    (products_rows s).

Definition source_rows (s : store) (f : from_clause) : list Row :=
  match f with
  | FromTable categories => map category_row (categories_rows s)
  | FromTable products => map product_row (products_rows s)
  | FromJoin => joined_rows s
  end.

Definition category_columns : list string := ["id"; "name"].
Definition product_columns : list string :=
  ["id"; "name"; "price"; "category_id"; "created_at"].

Definition known (key : string) (keys : list string) : option string :=
  if existsb (String.eqb key) keys then Some key else None.

(** Under which key the rows of a FROM clause carry a column; [None] for a
    column the clause does not have. *)
Definition column_key (f : from_clause) (c : column) : option string :=
  match f, c_table c with
  | FromTable categories, categories => known (c_key c) category_columns
  | FromTable products, products => known (c_key c) product_columns
  | FromJoin, products => known (c_key c) product_columns
  | FromJoin, categories =>
      if String.eqb (c_key c) "id" then Some "category_id"
      else if String.eqb (c_key c) "name" then Some "category_name"
      else None
  | _, _ => None
  end.

Fixpoint resolve_all {A B : Type} (f : A -> option B) (l : list A) : option (list B) :=
  match l with
  | [] => Some []
  | a :: rest =>
      match f a, resolve_all f rest with
      | Some b, Some bs => Some (b :: bs)
      | _, _ => None
      end
  end.

Definition clause_key (f : from_clause) (cl : clause) : option (string * value) :=
  match cl with
  | eq_ c v => option_map (fun k => (k, v)) (column_key f c)
  end.

(** SQL equality and ordering of values.  Integers and reals compare as
    numbers; a comparison with NULL is never true; in an ORDER BY, NULL
    comes first, then numbers, then text, then dates. *)
Definition value_eqb (a b : value) : bool :=
  match a, b with
  | VInt x, VInt y => x =? y
  | VInt x, VReal q => Qeq_bool (inject_Z x) q
  | VReal p, VInt y => Qeq_bool p (inject_Z y)
  | VReal p, VReal q => Qeq_bool p q
  | VStr s, VStr t => String.eqb s t
  | VDate d, VDate e => d =? e
  | _, _ => false
  end.

Definition num_of (v : value) : option Q :=
  match v with
  | VInt z => Some (inject_Z z)
  | VReal q => Some q
  | _ => None
  end.

Definition rank (v : value) : nat :=
  match v with
  | VNone => 0
  | VInt _ | VReal _ => 1
  | VStr _ => 2
  | VDate _ => 3
  end.

Definition value_leb (a b : value) : bool :=
  match num_of a, num_of b with
  | Some p, Some q => Qle_bool p q
  | _, _ =>
      match a, b with
      | VStr s, VStr t => String.leb s t
      | VDate d, VDate e => d <=? e
      | _, _ => Nat.leb (rank a) (rank b)
      end
  end.

Definition holds (r : Row) (cond : string * value) : bool :=
  match get r (fst cond) with
  | Some v => value_eqb v (snd cond)
  | None => false
  end.

Definition project (keys : option (list string)) (r : Row) : Row :=
  match keys with
  | None => r
  | Some ks =>
      flat_map (fun k => match get r k with
                         | Some v => [(k, v)]
                         | None => []
                         end) ks
  end.

Definition sort_key (key : string) (r : Row) : value :=
  match get r key with
  | Some v => v
  | None => VNone
  end.

Lemma value_leb_total (a b : value) : value_leb a b = true \/ value_leb b a = true.
Proof.
  assert (HQ : forall p q : Q, Qle_bool p q = true \/ Qle_bool q p = true).
  { intros p q. rewrite !Qle_bool_iff.
    destruct (Qlt_le_dec p q) as [H | H]; [left; apply Qlt_le_weak, H | right; exact H]. }
  destruct a, b; unfold value_leb; simpl; auto;
    try apply HQ; try apply String.leb_total.
  rewrite !Z.leb_le. lia.
Qed.

Module KeyAscending <: TotalLeBool.
Definition t : Type := (value * Row)%type.
Definition leb (x y : t) : bool := value_leb (fst x) (fst y).
Definition leb_total (x y : t) : leb x y = true \/ leb y x = true :=
  value_leb_total (fst x) (fst y).
End KeyAscending.

Module KeyDescending <: TotalLeBool.
Definition t : Type := (value * Row)%type.
Definition leb (x y : t) : bool := value_leb (fst y) (fst x).
Definition leb_total (x y : t) : leb x y = true \/ leb y x = true :=
  value_leb_total (fst y) (fst x).
End KeyDescending.

Module SortAscending := Sort KeyAscending.
Module SortDescending := Sort KeyDescending.

(** ORDER BY: the rows sorted on one key by a stable merge sort. *)
Definition sort_rows (ord : option (string * bool)) (rows : list Row) : list Row :=
  match ord with
  | None => rows
  | Some (key, descending) =>
      let keyed := map (fun r => (sort_key key r, r)) rows in
      map snd (if descending : bool
               then SortDescending.sort keyed
               else SortAscending.sort keyed)
  end.

Definition take {A : Type} (n : option nat) (l : list A) : list A :=
  match n with
  | Some k => firstn k l
  | None => l
  end.

Definition resolve_columns (f : from_clause) (cols : option (list column))
    : option (option (list string)) :=
  match cols with
  | None => Some None
  | Some cs => option_map Some (resolve_all (column_key f) cs)
  end.

Definition resolve_order (f : from_clause) (ord : option (column * bool))
    : option (option (string * bool)) :=
  match ord with
  | None => Some None
  | Some (c, d) => option_map (fun k => Some (k, d)) (column_key f c)
  end.

Definition no_such_column : exception := Exc OperationalError "no such column".

(** SELECT: the rows of the FROM clause that satisfy every condition, in
    the requested order, cut at the limit, projected on the columns. *)
Definition run_select (st : select_stmt) (s : store) : result (list Row) :=
  match resolve_all (clause_key (s_from st)) (s_where st),
        resolve_columns (s_from st) (s_columns st),
        resolve_order (s_from st) (s_order_by st) with
  | Some conds, Some keys, Some ord =>
      let matching := filter (fun r => forallb (holds r) conds)
                             (source_rows s (s_from st)) in
      Return (map (project keys) (take (s_limit st) (sort_rows ord matching)))
  | _, _, _ => Raise no_such_column
  end.

(** The rowid SQLite gives a new row: one more than the largest in use. *)
Definition next_rowid (ids : list Z) : Z :=
  match ids with
  | [] => 1
  | i :: rest => fold_left Z.max rest i + 1
  end.

(** The constraint failures, with the messages SQLite gives them. *)
Definition unique_failed : exception :=
  Exc IntegrityError "UNIQUE constraint failed: categories.name".

Definition not_null_failed : exception :=
  Exc IntegrityError "NOT NULL constraint failed".

Definition foreign_key_failed : exception :=
  Exc IntegrityError "FOREIGN KEY constraint failed".

Definition bad_value : exception :=
  Exc (OtherError "StatementError") "value of the wrong type".

(** A required column without a value. *)
Definition missing (o : option value) : bool :=
  match o with
  | None | Some VNone => true
  | Some _ => false
  end.

Definition insert_category (values : Row) (s : store) : result value * store :=
  if missing (get values "name") then (Raise not_null_failed, s)
  else
    match get values "name" with
    | Some (VStr name) =>
        if existsb (fun c => String.eqb (category_name c) name) (categories_rows s)
        then (Raise unique_failed, s)
        else
          let id := next_rowid (map category_id (categories_rows s)) in
          (Return (VInt id),
           mk_store (foreign_keys s)
                    (categories_rows s ++ [mk_Category id name])
                    (products_rows s))
    | _ => (Raise bad_value, s)
    end.

Definition insert_product (values : Row) (s : store) : result value * store :=
  if (missing (get values "name") || missing (get values "price")
      || missing (get values "category_id") || missing (get values "created_at"))%bool
  then (Raise not_null_failed, s)
  else
    match get values "name", option_map num_of (get values "price"),
          get values "category_id", get values "created_at" with
    | Some (VStr name), Some (Some price), Some (VInt cid), Some (VDate day) =>
        if (foreign_keys s &&
            negb (existsb (fun c => category_id c =? cid) (categories_rows s)))%bool
        then (Raise foreign_key_failed, s)
        else
          let id := next_rowid (map product_id (products_rows s)) in
          (Return (VInt id),
           mk_store (foreign_keys s)
                    (categories_rows s)
                    (products_rows s ++ [mk_Product id name price cid day]))
    | _, _, _, _ => (Raise bad_value, s)
    end.

(** DELETE FROM categories: refused as a whole when foreign keys are
    enforced and a product references one of the rows to delete. *)
Definition delete_categories (w : list clause) (s : store) : result value * store :=
  match resolve_all (clause_key (FromTable categories)) w with
  | None => (Raise no_such_column, s)
  | Some conds =>
      let doomed := fun c => forallb (holds (category_row c)) conds in
      if (foreign_keys s &&
          existsb (fun p =>
                     existsb (fun c => doomed c && (category_id c =? product_category_id p))
                             (categories_rows s))
                  (products_rows s))%bool
      then (Raise foreign_key_failed, s)
      else (Return VNone,
            mk_store (foreign_keys s)
                     (filter (fun c => negb (doomed c)) (categories_rows s))
                     (products_rows s))
  end.

Definition delete_products (w : list clause) (s : store) : result value * store :=
  match resolve_all (clause_key (FromTable products)) w with
  | None => (Raise no_such_column, s)
  | Some conds =>
      (Return VNone,
       mk_store (foreign_keys s)
                (categories_rows s)
                (filter (fun p => negb (forallb (holds (product_row p)) conds))
                        (products_rows s)))
  end.

Definition not_a_select : exception :=
  Exc (OtherError "ResourceClosedError") "This result object does not return rows".

(** The store as a [Database].  The fetch methods take SELECT statements;
    a SELECT leaves the store as it is, and so does every statement that
    raises.  What [execute] returns for a DELETE or a SELECT is not used by
    any caller. *)
#[export] Instance relational_store : Database store := {
  fetch_all q := fun s =>
    match q with
    | Select st => (run_select st s, s)
    | _ => (Raise not_a_select, s)
    end;
  fetch_one q := fun s =>
    match q with
    | Select st =>
        (match run_select st s with
         | Return rows => Return (hd_error rows)
         | Raise e => Raise e
         end, s)
    | _ => (Raise not_a_select, s)
    end;
  execute q values := fun s =>
    match q with
    | Select st =>
        (match run_select st s with
         | Return _ => Return VNone
         | Raise e => Raise e
         end, s)
    | Insert categories => insert_category values s
    | Insert products => insert_product values s
    | Delete categories w => delete_categories w s
    | Delete products w => delete_products w s
    end
}.

(** ** Observing a handler: the statements it issues, and a failing store *)

Inductive call : Type :=
| FetchAll (q : query)
| FetchOne (q : query)
| Execute (q : query) (values : Row).

(** A database that behaves as [db] and appends every call to a log. *)
Definition traced {St : Type} (db : Database St) : Database (St * list call) := {|
  fetch_all q := fun sl =>
    let '(r, s') := fetch_all q (fst sl) in (r, (s', (snd sl ++ [FetchAll q])%list));
  fetch_one q := fun sl =>
    let '(r, s') := fetch_one q (fst sl) in (r, (s', (snd sl ++ [FetchOne q])%list));
  execute q values := fun sl =>
    let '(r, s') := execute q values (fst sl) in
    (r, (s', (snd sl ++ [Execute q values])%list))
|}.

(** A database that reads as [db] does and whose [execute] raises [e]
    whatever the statement: a store that has become read-only, or a
    connection that drops on the write. *)
Definition failing_execute {St : Type} (e : exception) (db : Database St)
    : Database St := {|
  fetch_all := @fetch_all St db;
  fetch_one := @fetch_one St db;
  execute _ _ := raise e
|}.

(** The tests of the two [except] blocks on the text of the exception. *)
Definition add_recognizes (e : exception) : bool :=
  let error_str := lower (str e) in
  (contains "unique" error_str || contains "constraint" error_str)%bool.

Definition delete_recognizes (e : exception) : bool :=
  let error_str := lower (str e) in
  (contains "foreign" error_str || contains "constraint" error_str)%bool.

Definition category_exists : exception :=
  HTTPException HTTP_400_BAD_REQUEST "Category already exists".
Definition category_missing : exception :=
  HTTPException HTTP_400_BAD_REQUEST "Category does not exist".
Definition still_products : exception :=
  HTTPException HTTP_400_BAD_REQUEST "There are still products in the category".
Definition product_category_missing : exception :=
  HTTPException HTTP_404_NOT_FOUND "Category does not exist".

(** ** Store invariants and requests *)

Definition named (name : string) (c : Category) : bool :=
  String.eqb (category_name c) name.

Definition in_category (cid : Z) (p : Product) : bool :=
  product_category_id p =? cid.

(** Whether a product references a category called [name]. *)
Definition name_referenced (name : string) (s : store) : bool :=
  existsb (fun p =>
             existsb (fun c => named name c && (category_id c =? product_category_id p))
                     (categories_rows s))
          (products_rows s).

Fixpoint nodupb {A : Type} (eqb : A -> A -> bool) (l : list A) : bool :=
  match l with
  | [] => true
  | x :: rest => (negb (existsb (eqb x) rest) && nodupb eqb rest)%bool
  end.

Definition unique_names (s : store) : bool :=
  nodupb String.eqb (map category_name (categories_rows s)).

Definition unique_ids (s : store) : bool :=
  (nodupb Z.eqb (map category_id (categories_rows s)) &&
   nodupb Z.eqb (map product_id (products_rows s)))%bool.

(** Every product's [category_id] is the id of a category row. *)
Definition references_resolve (s : store) : bool :=
  forallb (fun p => existsb (fun c => category_id c =? product_category_id p)
                            (categories_rows s))
          (products_rows s).

Definition store_ok (s : store) : bool :=
  (unique_names s && unique_ids s && references_resolve s)%bool.

Definition referential_integrity (s : store) : Prop :=
  forall p, In p (products_rows s) ->
    exists c, In c (categories_rows s) /\ category_id c = product_category_id p.

(** The constraints of the schema, as propositions. *)
Record Invariant (s : store) : Prop := {
  inv_names : NoDup (map category_name (categories_rows s));
  inv_category_ids : NoDup (map category_id (categories_rows s));
  inv_product_ids : NoDup (map product_id (products_rows s));
  inv_references : referential_integrity s
}.

Definition referenced (s : store) (c : Category) : Prop :=
  exists p, In p (products_rows s) /\ product_category_id p = category_id c.

(** The requests that write to the store; the date is the server's current
    date when the request arrives. *)
Inductive request : Type :=
| POST_categories (name : string)
| DELETE_categories (name : string)
| POST_products (today : Z) (name : string) (price : Q) (category_name : string)
| DELETE_products (product_id : Z).

(** The store after a request, whether it succeeded or failed. *)
Definition handle (r : request) (s : store) : store :=
  match r with
  | POST_categories name => snd (add_category name s)
  | DELETE_categories name => snd (delete_category name s)
  | POST_products today name price category_name =>
      snd (product_create today name price category_name s)
  | DELETE_products product_id => snd (product_delete product_id s)
  end.

Inductive reachable (fk : bool) : store -> Prop :=
| reachable_empty : reachable fk (empty_store fk)
| reachable_handle : forall s r, reachable fk s -> reachable fk (handle r s).

Definition exec (rs : list request) (s : store) : store :=
  fold_left (fun s r => handle r s) rs s.

(** The number a value carries. *)
Definition real_of (v : value) : Q :=
  match num_of v with
  | Some q => q
  | None => 0%Q
  end.

(** The column [key] of the rows of a response. *)
Definition column_of (key : string) (rows : list Row) : list (option value) :=
  map (fun r => get r key) rows.

(** ** Category requests alone *)

(** The two writing requests of [routers/categories.py], and the store
    after a run of them. *)
Inductive category_request : Type :=
| Create (name : string)
| Remove (name : string).

Definition category_step (r : category_request) (s : store) : store :=
  match r with
  | Create name => snd (add_category name s)
  | Remove name => snd (delete_category name s)
  end.

Definition run_categories (rs : list category_request) (s : store) : store :=
  fold_left (fun s r => category_step r s) rs s.

(** ** tests/conftest.py: the URLs of the test database *)

Definition backslash : ascii := ascii_of_nat 92.
Definition slash : ascii := ascii_of_nat 47.

(** [s.replace(old, new)] where [old] and [new] are one character long. *)
Fixpoint replace (old new : ascii) (s : string) : string :=
  match s with
  | EmptyString => EmptyString
  | String c rest =>
      String (if Ascii.eqb c old then new else c) (replace old new rest)
  end.

(** [db_path_abs] after the adjustment for Windows; the absolute path of
    the database file and [os.name] are inputs. *)
Definition db_path_abs (os_name : string) (absolute : string) : string :=
  if String.eqb os_name "nt" then replace backslash slash absolute else absolute.

Definition SYNC_DB_URL (os_name absolute : string) : string :=
  "sqlite:///" ++ db_path_abs os_name absolute.

Definition ASYNC_DB_URL (os_name absolute : string) : string :=
  "sqlite+aiosqlite:///" ++ db_path_abs os_name absolute.

(** Whether a character occurs in a string. *)
Fixpoint occurs (c : ascii) (s : string) : bool :=
  match s with
  | EmptyString => false
  | String d rest => (Ascii.eqb d c || occurs c rest)%bool
  end.

(** * Properties *)

(** ** Lists *)

Lemma hd_error_filter_map {A B : Type} (f : A -> B) (P : B -> bool) (l : list A) :
  hd_error (filter P (map f l)) = option_map f (find (fun x => P (f x)) l).
Proof.
  induction l as [| x l IH]; simpl; [reflexivity |].
  destruct (P (f x)); simpl; [reflexivity | exact IH].
Qed.

Lemma probe_filter_map {A B C : Type} (f : A -> B) (g : B -> C) (P : B -> bool)
    (l : list A) :
  is_not_None (hd_error (map g (firstn 1 (filter P (map f l)))))
  = existsb (fun x => P (f x)) l.
Proof.
  induction l as [| x l IH]; simpl; [reflexivity |].
  destruct (P (f x)); simpl; [reflexivity | exact IH].
Qed.

Lemma map_project_all (rows : list Row) : map (project None) rows = rows.
Proof. induction rows as [| r rows IH]; simpl; [| rewrite IH]; reflexivity. Qed.

Lemma nodupb_NoDup {A : Type} (eqb : A -> A -> bool)
    (eqb_spec : forall x y, eqb x y = true <-> x = y) (l : list A) :
  nodupb eqb l = true <-> NoDup l.
Proof.
  induction l as [| x l IH]; simpl.
  - split; [constructor | reflexivity].
  - rewrite andb_true_iff, negb_true_iff, IH. split.
    + intros [Hx Hl]. constructor; [| exact Hl].
      intro Hin. assert (existsb (eqb x) l = true) as E; [| congruence].
      apply existsb_exists. exists x. split; [exact Hin | now apply eqb_spec].
    + intro H. inversion H as [| ? ? Hx Hl]; subst. split; [| exact Hl].
      destruct (existsb (eqb x) l) eqn:E; [| reflexivity].
      apply existsb_exists in E. destruct E as [y [Hy Hxy]].
      apply eqb_spec in Hxy. subst y. contradiction.
Qed.

Lemma fold_max_init (l : list Z) (a : Z) : a <= fold_left Z.max l a.
Proof.
  revert a. induction l as [| y l IH]; simpl; intro a; [lia |].
  specialize (IH (Z.max a y)). lia.
Qed.

Lemma fold_max_elt (l : list Z) (a x : Z) : In x l -> x <= fold_left Z.max l a.
Proof.
  revert a. induction l as [| y l IH]; simpl; intros a H; [contradiction |].
  destruct H as [H | H].
  - subst y. pose proof (fold_max_init l (Z.max a x)). lia.
  - apply IH, H.
Qed.

Lemma next_rowid_fresh (ids : list Z) (x : Z) : In x ids -> x < next_rowid ids.
Proof.
  destruct ids as [| i rest]; simpl; [contradiction |].
  intros [H | H].
  - subst x. pose proof (fold_max_init rest i). lia.
  - pose proof (fold_max_elt rest i x H). lia.
Qed.

Lemma existsb_ext' {A : Type} (f g : A -> bool) (l : list A) :
  (forall a, f a = g a) -> existsb f l = existsb g l.
Proof.
  intro H. induction l as [| x l IH]; simpl; [| rewrite H, IH]; reflexivity.
Qed.

Lemma find_ext' {A : Type} (f g : A -> bool) (l : list A) :
  (forall a, f a = g a) -> find f l = find g l.
Proof.
  intro H. induction l as [| x l IH]; simpl; [| rewrite H, IH]; reflexivity.
Qed.

(** ** The controllers on the relational store *)

Lemma read_categories_store (s : store) :
  read_categories s = (Return (map category_row (categories_rows s)), s).
Proof.
  unfold read_categories. simpl. unfold run_select. simpl.
  rewrite map_project_all.
  rewrite (forallb_filter_id (fun _ => true)); [reflexivity |].
  apply forallb_forall; reflexivity.
Qed.

Lemma read_category_store (name : string) (s : store) :
  read_category name s
  = (Return (option_map category_row (find (named name) (categories_rows s))), s).
Proof.
  unfold read_category. simpl. unfold run_select. simpl.
  rewrite map_project_all, hd_error_filter_map. do 3 f_equal.
  apply find_ext'. intro c. unfold holds, named. simpl. apply andb_true_r.
Qed.

Lemma check_category_has_products_store (cid : Z) (s : store) :
  check_category_has_products (VInt cid) s
  = (Return (existsb (in_category cid) (products_rows s)), s).
Proof.
  unfold check_category_has_products, bind, ret. simpl. unfold run_select. simpl.
  pose proof (probe_filter_map product_row (project (Some ["id"]))
                (fun r => holds r ("category_id", VInt cid) && true)%bool
                (products_rows s)) as E.
  simpl in E. rewrite E. do 2 f_equal.
  apply existsb_ext'. intro p. unfold holds, in_category. simpl.
  apply andb_true_r.
Qed.

Lemma write_category_store (name : string) (s : store) :
  write_category name s
  = if existsb (named name) (categories_rows s)
    then (Raise (unique_failed), s)
    else
      let id := next_rowid (map category_id (categories_rows s)) in
      (Return [("id", VInt id); ("name", VStr name)],
       mk_store (foreign_keys s)
                (categories_rows s ++ [mk_Category id name])
                (products_rows s)).
Proof.
  unfold write_category, bind, ret. simpl. unfold insert_category. simpl.
  fold (named name). destruct (existsb (named name) (categories_rows s)); reflexivity.
Qed.

Lemma purge_category_store (name : string) (s : store) :
  purge_category name s
  = if (foreign_keys s && name_referenced name s)%bool
    then (Raise foreign_key_failed, s)
    else (Return tt,
          mk_store (foreign_keys s)
                   (filter (fun c => negb (named name c)) (categories_rows s))
                   (products_rows s)).
Proof.
  unfold purge_category, bind, ret. simpl. unfold delete_categories. simpl.
  assert (E : forall c, (holds (category_row c) ("name", VStr name) && true)%bool
                        = named name c)
    by (intro c; unfold holds, named; simpl; apply andb_true_r).
  unfold name_referenced.
  rewrite (existsb_ext' _
    (fun p => existsb (fun c => named name c && (category_id c =? product_category_id p))
                      (categories_rows s)))
    by (intro p; apply existsb_ext'; intro c; rewrite E; reflexivity).
  rewrite (filter_ext _ (fun c => negb (named name c)))
    by (intro c; rewrite E; reflexivity).
  destruct (foreign_keys s && _)%bool; reflexivity.
Qed.

(** ** Running a handler step by step *)

Lemma bind_run {St A B : Type} (m : M St A) (k : A -> M St B) (s s' : St)
    (r : result A) :
  m s = (r, s') ->
  bind m k s = match r with
               | Return a => k a s'
               | Raise e => (Raise e, s')
               end.
Proof. intro H. unfold bind. rewrite H. reflexivity. Qed.

(** Runs the first call of a sequence with its characterisation. *)
Ltac run_with lemma :=
  erewrite bind_run by apply lemma; cbv beta iota.

Lemma category_row_truthy (c : Category) : truthy (Some (category_row c)) = true.
Proof. reflexivity. Qed.

Lemma getitem_category_id {St : Type} (c : Category) (s : St) :
  getitem (category_row c) "id" s = (Return (VInt (category_id c)), s).
Proof. reflexivity. Qed.

Lemma getitem_category_name {St : Type} (c : Category) (s : St) :
  getitem (category_row c) "name" s = (Return (VStr (category_name c)), s).
Proof. reflexivity. Qed.

(** ** The routers on the relational store *)

Lemma add_category_store (name : string) (s : store) :
  add_category name s
  = if existsb (named name) (categories_rows s)
    then (Raise category_exists, s)
    else
      let id := next_rowid (map category_id (categories_rows s)) in
      (Return [("id", VInt id); ("name", VStr name)],
       mk_store (foreign_keys s)
                (categories_rows s ++ [mk_Category id name])
                (products_rows s)).
Proof.
  unfold add_category, try_except. rewrite write_category_store.
  destruct (existsb (named name) (categories_rows s)); reflexivity.
Qed.

Lemma delete_category_store (name : string) (s : store) :
  delete_category name s
  = match find (named name) (categories_rows s) with
    | None => (Raise category_missing, s)
    | Some c =>
        if existsb (in_category (category_id c)) (products_rows s)
        then (Raise still_products, s)
        else if (foreign_keys s && name_referenced name s)%bool
        then (Raise still_products, s)
        else (Return (mk_Response HTTP_200_OK),
              mk_store (foreign_keys s)
                       (filter (fun c => negb (named name c)) (categories_rows s))
                       (products_rows s))
    end.
Proof.
  unfold delete_category.
  run_with read_category_store.
  destruct (find (named name) (categories_rows s)) as [c |]; [| reflexivity].
  cbn [option_map]. rewrite category_row_truthy. cbv iota.
  run_with @getitem_category_id.
  run_with check_category_has_products_store.
  destruct (existsb (in_category (category_id c)) (products_rows s)); [reflexivity |].
  unfold try_except, bind. rewrite purge_category_store.
  destruct (foreign_keys s && name_referenced name s)%bool; reflexivity.
Qed.

Lemma product_create_store (today : Z) (name : string) (price : Q)
    (cname : string) (s : store) :
  product_create today name price cname s
  = match find (named cname) (categories_rows s) with
    | None => (Raise product_category_missing, s)
    | Some c =>
        let id := next_rowid (map product_id (products_rows s)) in
        (Return [("id", VInt id); ("name", VStr name); ("price", VReal price);
                 ("category_id", VInt (category_id c));
                 ("category_name", VStr (category_name c));
                 ("created_at", VDate today)],
         mk_store (foreign_keys s) (categories_rows s)
                  (products_rows s
                   ++ [mk_Product id name price (category_id c) today]))
    end.
Proof.
  unfold product_create.
  run_with read_category_store.
  destruct (find (named cname) (categories_rows s)) as [c |] eqn:F; [| reflexivity].
  cbn [option_map].
  run_with @getitem_category_id.
  run_with @getitem_category_name.
  unfold bind, ret. simpl. unfold insert_product. simpl.
  apply find_some in F. destruct F as [Hin _].
  assert (E : existsb (fun c' => category_id c' =? category_id c) (categories_rows s)
              = true).
  { apply existsb_exists. exists c. split; [exact Hin | apply Z.eqb_refl]. }
  rewrite E, andb_false_r. reflexivity.
Qed.

Lemma product_delete_store (pid : Z) (s : store) :
  product_delete pid s
  = match find (fun p => product_id p =? pid) (products_rows s) with
    | None => (Raise (HTTPException HTTP_404_NOT_FOUND "Product does not exist"), s)
    | Some _ =>
        (Return (mk_Response HTTP_200_OK),
         mk_store (foreign_keys s) (categories_rows s)
                  (filter (fun p => negb (product_id p =? pid)) (products_rows s)))
    end.
Proof.
  unfold product_delete, bind, ret. simpl. unfold run_select, delete_products. simpl.
  rewrite map_project_all, hd_error_filter_map.
  rewrite (find_ext' _ (fun p => product_id p =? pid))
    by (intro p; unfold holds; simpl; apply andb_true_r).
  destruct (find (fun p => product_id p =? pid) (products_rows s)); [| reflexivity].
  simpl. do 2 f_equal. apply filter_ext. intro q. unfold holds. simpl.
  rewrite andb_true_r. reflexivity.
Qed.

(** ** The invariant of the store *)

Lemma references_resolve_iff (s : store) :
  references_resolve s = true <-> referential_integrity s.
Proof.
  unfold references_resolve, referential_integrity. rewrite forallb_forall.
  split; intros H p Hp; specialize (H p Hp).
  - apply existsb_exists in H. destruct H as [c [Hc E]].
    exists c. split; [exact Hc | now apply Z.eqb_eq].
  - destruct H as [c [Hc E]]. apply existsb_exists.
    exists c. split; [exact Hc | now apply Z.eqb_eq].
Qed.

Lemma store_ok_iff (s : store) : store_ok s = true <-> Invariant s.
Proof.
  unfold store_ok, unique_names, unique_ids.
  rewrite !andb_true_iff, references_resolve_iff.
  rewrite (nodupb_NoDup String.eqb String.eqb_eq).
  rewrite !(nodupb_NoDup Z.eqb Z.eqb_eq).
  split.
  - intros [[Hn [Hc Hp]] Hr]. constructor; assumption.
  - intros [Hn Hc Hp Hr]. auto.
Qed.

Lemma NoDup_snoc {A : Type} (l : list A) (x : A) :
  NoDup l -> ~ In x l -> NoDup (l ++ [x]).
Proof.
  intros Hl Hx. apply (Permutation_NoDup (l := x :: l)).
  - apply Permutation_cons_append.
  - constructor; assumption.
Qed.

Lemma NoDup_map_filter {A B : Type} (f : A -> B) (P : A -> bool) (l : list A) :
  NoDup (map f l) -> NoDup (map f (filter P l)).
Proof.
  induction l as [| x l IH]; simpl; intro H; [constructor |].
  inversion H as [| ? ? Hx Hl]; subst.
  destruct (P x); simpl; [| now apply IH].
  constructor; [| now apply IH].
  intro Hin. apply Hx. apply in_map_iff in Hin. destruct Hin as [y [E Hy]].
  apply filter_In in Hy. apply in_map_iff. exists y. tauto.
Qed.

Lemma next_rowid_not_in (ids : list Z) : ~ In (next_rowid ids) ids.
Proof. intro H. apply next_rowid_fresh in H. lia. Qed.

Lemma named_false_not_in (name : string) (cats : list Category) :
  existsb (named name) cats = false -> ~ In name (map category_name cats).
Proof.
  intros E Hin. apply in_map_iff in Hin. destruct Hin as [c [Hc Hin]].
  assert (existsb (named name) cats = true) as T; [| congruence].
  apply existsb_exists. exists c. split; [exact Hin |].
  unfold named. now apply String.eqb_eq.
Qed.

(** With unique names, the row [find] returns is the only one so named. *)
Lemma named_unique (name : string) (cats : list Category) (c c' : Category) :
  NoDup (map category_name cats) ->
  find (named name) cats = Some c -> In c' cats -> named name c' = true -> c' = c.
Proof.
  induction cats as [| x l IH]; simpl; intros Hnd F Hin Hn; [contradiction |].
  inversion Hnd as [| ? ? Hx Hl]; subst.
  destruct (named name x) eqn:Ex.
  - injection F as <-. destruct Hin as [-> | Hin]; [reflexivity |].
    exfalso. apply Hx. apply in_map_iff. exists c'. split; [| exact Hin].
    unfold named in *. apply String.eqb_eq in Ex, Hn. congruence.
  - destruct Hin as [-> | Hin]; [congruence |]. now apply IH.
Qed.

Lemma add_category_invariant (name : string) (s : store) :
  Invariant s -> Invariant (snd (add_category name s)).
Proof.
  intros [Hn Hc Hp Hr]. rewrite add_category_store.
  destruct (existsb (named name) (categories_rows s)) eqn:E; simpl.
  - constructor; assumption.
  - constructor; simpl; try assumption.
    + rewrite map_app. simpl. apply NoDup_snoc; [exact Hn |].
      now apply named_false_not_in.
    + rewrite map_app. simpl. apply NoDup_snoc; [exact Hc |].
      apply next_rowid_not_in.
    + intros p Hin. destruct (Hr p Hin) as [c [Hcin Hid]].
      exists c. split; [| exact Hid]. simpl. apply in_or_app. now left.
Qed.

(** What the guard of [delete_category] gives: after a successful delete
    every category with a referencing product is still there. *)
Lemma delete_category_keeps_referenced (name : string) (s : store) (c : Category) :
  NoDup (map category_name (categories_rows s)) ->
  In c (categories_rows s) -> referenced s c ->
  In c (categories_rows (snd (delete_category name s))).
Proof.
  intros Hn Hin [p [Hp Hpc]]. rewrite delete_category_store.
  destruct (find (named name) (categories_rows s)) as [d |] eqn:F; [| exact Hin].
  destruct (existsb (in_category (category_id d)) (products_rows s)) eqn:E;
    [exact Hin |].
  destruct (foreign_keys s && name_referenced name s)%bool; [exact Hin |].
  simpl. apply filter_In. split; [exact Hin |].
  destruct (named name c) eqn:Nc; [| reflexivity].
  exfalso. assert (c = d) by (eapply named_unique; eassumption). subst d.
  assert (existsb (in_category (category_id c)) (products_rows s) = true) as T;
    [| congruence].
  apply existsb_exists. exists p. split; [exact Hp |].
  unfold in_category. now apply Z.eqb_eq.
Qed.

Lemma delete_category_invariant (name : string) (s : store) :
  Invariant s -> Invariant (snd (delete_category name s)).
Proof.
  intros I. pose proof (delete_category_keeps_referenced name s) as K.
  destruct I as [Hn Hc Hp Hr]. specialize (fun c => K c Hn).
  assert (P : products_rows (snd (delete_category name s)) = products_rows s).
  { rewrite delete_category_store.
    destruct (find _ _); [| reflexivity].
    destruct (existsb _ _); [reflexivity |].
    destruct (_ && _)%bool; reflexivity. }
  constructor.
  - revert K P. rewrite delete_category_store.
    destruct (find _ _); [| intros; assumption].
    destruct (existsb _ _); [intros; assumption |].
    destruct (_ && _)%bool; [intros; assumption |].
    intros _ _. simpl. now apply NoDup_map_filter.
  - revert K P. rewrite delete_category_store.
    destruct (find _ _); [| intros; assumption].
    destruct (existsb _ _); [intros; assumption |].
    destruct (_ && _)%bool; [intros; assumption |].
    intros _ _. simpl. now apply NoDup_map_filter.
  - rewrite P. exact Hp.
  - intros p Hin. rewrite P in Hin. destruct (Hr p Hin) as [c [Hcin Hid]].
    exists c. split; [| exact Hid]. apply K; [exact Hcin |].
    exists p. split; [exact Hin | now symmetry].
Qed.

Lemma product_create_invariant (today : Z) (name : string) (price : Q)
    (cname : string) (s : store) :
  Invariant s -> Invariant (snd (product_create today name price cname s)).
Proof.
  intros [Hn Hc Hp Hr]. rewrite product_create_store.
  destruct (find (named cname) (categories_rows s)) as [c |] eqn:F; simpl.
  - constructor; simpl; try assumption.
    + rewrite map_app. simpl. apply NoDup_snoc; [exact Hp |].
      apply next_rowid_not_in.
    + intros p Hin. simpl in Hin. apply in_app_or in Hin.
      destruct Hin as [Hin | [<- | []]].
      * destruct (Hr p Hin) as [d [Hd Hid]]. exists d. split; assumption.
      * apply find_some in F. exists c. split; [apply F | reflexivity].
  - constructor; assumption.
Qed.

Lemma product_delete_invariant (pid : Z) (s : store) :
  Invariant s -> Invariant (snd (product_delete pid s)).
Proof.
  intros [Hn Hc Hp Hr]. rewrite product_delete_store.
  destruct (find _ (products_rows s)) as [found |]; simpl.
  - constructor; simpl; try assumption.
    + now apply NoDup_map_filter.
    + intros p Hin. simpl in Hin. apply filter_In in Hin. apply Hr, Hin.
  - constructor; assumption.
Qed.

Lemma handle_invariant (r : request) (s : store) :
  Invariant s -> Invariant (handle r s).
Proof.
  destruct r; simpl.
  - apply add_category_invariant.
  - apply delete_category_invariant.
  - apply product_create_invariant.
  - apply product_delete_invariant.
Qed.

Lemma reachable_invariant (fk : bool) (s : store) : reachable fk s -> Invariant s.
Proof.
  induction 1 as [| s r _ IH].
  - constructor; simpl; try constructor. intros p [].
  - now apply handle_invariant.
Qed.

Lemma reachable_store_ok (fk : bool) (s : store) : reachable fk s -> store_ok s = true.
Proof. intro H. apply store_ok_iff. eapply reachable_invariant, H. Qed.

Lemma reachable_exec (fk : bool) (rs : list request) (s : store) :
  reachable fk s -> reachable fk (exec rs s).
Proof.
  revert s. induction rs as [| r rs IH]; simpl; intros s H; [exact H |].
  apply IH. now constructor.
Qed.

(** ** The handlers over any database *)

Section AnyDatabase.

Context {St : Type} (db : Database St).

(** What [add_category] makes of an exception of the insert. *)
Lemma add_category_on_raise (name : string) (s s' : St) (e : exception) :
  write_category name s = (Raise e, s') ->
  add_category name s
  = (if (isinstance e [UniqueViolationError; IntegrityError] && add_recognizes e)%bool
     then Raise category_exists
     else Raise e, s').
Proof.
  intro H. unfold add_category, try_except. rewrite H.
  fold (add_recognizes e).
  destruct (isinstance e _); [| reflexivity].
  destruct (add_recognizes e); reflexivity.
Qed.

Lemma add_category_on_return (name : string) (s s' : St) (content : Row) :
  write_category name s = (Return content, s') ->
  add_category name s = (Return content, s').
Proof. intro H. unfold add_category, try_except. rewrite H. reflexivity. Qed.

(** [delete_category] up to the DELETE: the category is found and the
    probe finds no product. *)
Lemma delete_category_reaches_purge (name : string) (s s1 s2 : St) (row : Row)
    (cid : value) :
  read_category name s = (Return (Some row), s1) ->
  truthy (Some row) = true ->
  get row "id" = Some cid ->
  check_category_has_products cid s1 = (Return false, s2) ->
  delete_category name s
  = match purge_category name s2 with
    | (Return _, s3) => (Return (mk_Response HTTP_200_OK), s3)
    | (Raise e, s3) =>
        (if delete_recognizes e then Raise still_products else Raise e, s3)
    end.
Proof.
  intros Hread Htruthy Hid Hcheck. unfold delete_category.
  run_with Hread. rewrite Htruthy.
  unfold subscript, getitem. rewrite Hid.
  erewrite bind_run by reflexivity. cbv beta iota.
  run_with Hcheck.
  unfold try_except, bind.
  destruct (purge_category name s2) as [[u | e] s3]; [reflexivity |].
  fold (delete_recognizes e). destruct (delete_recognizes e); reflexivity.
Qed.

Lemma delete_category_lookup_raises (name : string) (s s' : St) (e : exception) :
  read_category name s = (Raise e, s') ->
  delete_category name s = (Raise e, s').
Proof. intro H. unfold delete_category. run_with H. reflexivity. Qed.

Lemma delete_category_probe_raises (name : string) (s s1 s' : St) (row : Row)
    (cid : value) (e : exception) :
  read_category name s = (Return (Some row), s1) ->
  truthy (Some row) = true ->
  get row "id" = Some cid ->
  check_category_has_products cid s1 = (Raise e, s') ->
  delete_category name s = (Raise e, s').
Proof.
  intros Hread Htruthy Hid Hcheck. unfold delete_category.
  run_with Hread. rewrite Htruthy.
  unfold subscript, getitem. rewrite Hid.
  erewrite bind_run by reflexivity. cbv beta iota.
  run_with Hcheck. reflexivity.
Qed.

(** The log of each controller: one call. *)
Lemma write_category_traced (name : string) (s : St) (log : list call) :
  @write_category _ (traced db) name (s, log)
  = (fst (write_category name s),
     (snd (write_category name s),
      log ++ [Execute (Insert categories) [("name", VStr name)]])).
Proof.
  unfold write_category, bind, ret. simpl.
  destruct (execute _ _ s) as [[v | e] s']; reflexivity.
Qed.

Lemma read_category_traced (name : string) (s : St) (log : list call) :
  @read_category _ (traced db) name (s, log)
  = (fst (read_category name s),
     (snd (read_category name s),
      log ++ [FetchOne (where_ (table_select categories)
                               (eq_ (col categories "name") (VStr name)))])).
Proof.
  unfold read_category. simpl.
  destruct (fetch_one _ s) as [r s']; reflexivity.
Qed.

Lemma check_category_has_products_traced (cid : value) (s : St) (log : list call) :
  @check_category_has_products _ (traced db) cid (s, log)
  = (fst (check_category_has_products cid s),
     (snd (check_category_has_products cid s),
      log ++ [FetchOne (limit (where_ (select [col products "id"])
                                      (eq_ (col products "category_id") cid)) 1)])).
Proof.
  unfold check_category_has_products, bind, ret. simpl.
  destruct (fetch_one _ s) as [[r | e] s']; reflexivity.
Qed.

Lemma purge_category_traced (name : string) (s : St) (log : list call) :
  @purge_category _ (traced db) name (s, log)
  = (fst (purge_category name s),
     (snd (purge_category name s),
      log ++ [Execute (where_ (table_delete categories)
                              (eq_ (col categories "name") (VStr name))) []])).
Proof.
  unfold purge_category, bind, ret. simpl.
  destruct (execute _ _ s) as [[v | e] s']; reflexivity.
Qed.

Lemma add_category_traced (name : string) (s : St) (log : list call) :
  @add_category _ (traced db) name (s, log)
  = (fst (add_category name s),
     (snd (add_category name s),
      log ++ [Execute (Insert categories) [("name", VStr name)]])).
Proof.
  unfold add_category, try_except. rewrite write_category_traced.
  destruct (write_category name s) as [[content | e] s']; simpl; [reflexivity |].
  destruct (isinstance e _); [| reflexivity].
  destruct (_ || _)%bool; reflexivity.
Qed.

End AnyDatabase.

(** * The claims *)

(** C6. A store error is never reclassified on a text the handler does not
    recognize.  When the insert of [add_category] raises [e]: if the text
    of [e] has neither "unique" nor "constraint", the handler raises [e]
    itself; and the handler raises something else than [e] only when the
    text is recognized, and then it is the 400 "Category already exists".
    When the DELETE of [delete_category] raises [e] (the category was found
    and the probe found no product): if the text of [e] has neither
    "foreign" nor "constraint", the handler raises [e] itself; it raises
    something else only when the text is recognized, and then it is the 400
    "There are still products in the category".  An exception of the lookup
    or of the probe leaves [delete_category] as it came.  This holds for
    every database. *)
Theorem store_errors_not_reclassified {St : Type} (db : Database St)
    (name : string) (e : exception) (s s1 s2 s' : St) (row : Row) (cid : value) :
  (write_category name s = (Raise e, s') ->
     (add_recognizes e = false -> add_category name s = (Raise e, s'))
     /\ (add_category name s <> (Raise e, s') ->
         add_recognizes e = true
         /\ add_category name s = (Raise category_exists, s')))
  /\ (read_category name s = (Return (Some row), s1) ->
      truthy (Some row) = true ->
      get row "id" = Some cid ->
      check_category_has_products cid s1 = (Return false, s2) ->
      purge_category name s2 = (Raise e, s') ->
        (delete_recognizes e = false -> delete_category name s = (Raise e, s'))
        /\ (delete_category name s <> (Raise e, s') ->
            delete_recognizes e = true
            /\ delete_category name s = (Raise still_products, s')))
  /\ (read_category name s = (Raise e, s') ->
      delete_category name s = (Raise e, s'))
  /\ (read_category name s = (Return (Some row), s1) ->
      truthy (Some row) = true ->
      get row "id" = Some cid ->
      check_category_has_products cid s1 = (Raise e, s') ->
      delete_category name s = (Raise e, s')).
Proof.
  split; [| split; [| split]].
  - intro Hw. rewrite (add_category_on_raise db name s s' e Hw).
    destruct (add_recognizes e).
    + split; [discriminate |]. intro Hne.
      destruct (isinstance e _); simpl in *; [auto | congruence].
    + rewrite andb_false_r. split; [reflexivity | congruence].
  - intros Hread Htruthy Hid Hcheck Hpurge.
    rewrite (delete_category_reaches_purge db name s s1 s2 row cid
               Hread Htruthy Hid Hcheck), Hpurge.
    destruct (delete_recognizes e).
    + split; [discriminate | auto].
    + split; [reflexivity | congruence].
  - apply delete_category_lookup_raises.
  - apply delete_category_probe_raises.
Qed.

(** The store keeps one category and no product; every write fails with
    "database is locked", as SQLite does under a competing writer. *)
Lemma store_errors_not_reclassified_witness :
  let locked := Exc OperationalError "database is locked" in
  let db := failing_execute locked relational_store in
  let s := mk_store true [mk_Category 1 "Books"] [] in
  @add_category _ db "Books" s = (Raise locked, s)
  /\ @delete_category _ db "Books" s = (Raise locked, s).
Proof.
  intros locked db s.
  pose proof (store_errors_not_reclassified db "Books" locked s s s s
                (category_row (mk_Category 1 "Books")) (VInt 1)) as [Hadd [Hdel _]].
  split.
  - apply Hadd; reflexivity.
  - apply Hdel; reflexivity.
Defined.

(** C5. On the relational store [check_category_has_products] returns, and
    it returns true if and only if at least one product row has
    [category_id] equal to the given id; the store is left as it was.  Over
    any database it issues one call: a [fetch_one] of the SELECT of
    [products.id] restricted to the category and limited to one row, an
    existence probe. *)
Theorem has_products_is_an_existence_probe :
  (forall (cid : Z) (s : store),
      exists b : bool,
        check_category_has_products (VInt cid) s = (Return b, s)
        /\ (b = true <->
            exists p, In p (products_rows s) /\ product_category_id p = cid))
  /\ (forall (St : Type) (db : Database St) (cid : value) (s : St) (log : list call),
         snd (snd (@check_category_has_products _ (traced db) cid (s, log)))
         = log ++ [FetchOne
                     (Select (mk_select (Some [col products "id"])
                                        (FromTable products)
                                        [eq_ (col products "category_id") cid]
                                        None
                                        (Some 1%nat)))]).
Proof.
  split.
  - intros cid s. exists (existsb (in_category cid) (products_rows s)).
    split; [apply check_category_has_products_store |].
    rewrite existsb_exists. unfold in_category.
    split; intros [p [Hp E]]; exists p; (split; [exact Hp |]); now apply Z.eqb_eq.
  - intros St db cid s log. rewrite check_category_has_products_traced. reflexivity.
Qed.

Lemma one_row_named (name : string) (cats : list Category) :
  NoDup (map category_name cats) ->
  existsb (named name) cats = true ->
  List.length (filter (named name) cats) = 1%nat.
Proof.
  induction cats as [| c l IH]; simpl; intros Hnd E; [discriminate |].
  inversion Hnd as [| ? ? Hc Hl]; subst.
  destruct (named name c) eqn:N; simpl.
  - f_equal. destruct (filter (named name) l) as [| d rest] eqn:F; [reflexivity |].
    exfalso. apply Hc.
    assert (In d (filter (named name) l)) as Hd by (rewrite F; now left).
    apply filter_In in Hd. destruct Hd as [Hd Nd].
    apply in_map_iff. exists d. split; [| exact Hd].
    unfold named in *. apply String.eqb_eq in N, Nd. congruence.
  - now apply IH.
Qed.

(** C3. Creating a category whose name already exists fails with the 400
    "Category already exists"; the only statement issued is the INSERT (no
    SELECT before it), which the store refuses with its UNIQUE constraint
    failure; the store is unchanged, and it holds exactly one row with that
    name afterwards. *)
Theorem duplicate_category_is_rejected (name : string) (s : store) :
  store_ok s = true ->
  existsb (named name) (categories_rows s) = true ->
  add_category name s = (Raise category_exists, s)
  /\ execute (table_insert categories) [("name", VStr name)] s = (Raise unique_failed, s)
  /\ @add_category _ (traced relational_store) name (s, [])
     = (Raise category_exists,
        (s, [Execute (Insert categories) [("name", VStr name)]]))
  /\ List.length (filter (named name) (categories_rows (snd (add_category name s))))
     = 1%nat.
Proof.
  intros Hok Hdup.
  assert (A : add_category name s = (Raise category_exists, s))
    by (rewrite add_category_store, Hdup; reflexivity).
  split; [exact A | split; [| split]].
  - simpl. unfold insert_category. simpl. fold (named name). rewrite Hdup. reflexivity.
  - rewrite add_category_traced, A. reflexivity.
  - rewrite A. simpl. apply one_row_named; [| exact Hdup].
    apply store_ok_iff in Hok. apply Hok.
Qed.

Lemma duplicate_category_is_rejected_witness :
  let s := handle (POST_categories "Groceries") (empty_store false) in
  add_category "Groceries" s = (Raise category_exists, s)
  /\ List.length (filter (named "Groceries") (categories_rows (snd (add_category "Groceries" s))))
     = 1%nat.
Proof.
  intro s.
  destruct (duplicate_category_is_rejected "Groceries" s) as [A [_ [_ L]]];
    [reflexivity | reflexivity |].
  split; [exact A | exact L].
Defined.

Lemma fresh_name_not_listed (name : string) (cats : list Category) :
  existsb (named name) cats = false ->
  Forall (fun r => get r "name" <> Some (VStr name)) (map category_row cats).
Proof.
  induction cats as [| c l IH]; simpl; intro E; [constructor |].
  apply orb_false_iff in E. destruct E as [Ec El].
  constructor; [| now apply IH].
  simpl. intro H. injection H as H. unfold named in Ec.
  rewrite H, String.eqb_refl in Ec. discriminate.
Qed.

(** C8. Creating a category under a fresh name returns the created id and
    that name, and the listing that follows is the earlier listing followed
    by exactly that row: no earlier row bears the name, and from an empty
    table the listing is that row alone. *)
Theorem create_then_list (name : string) (s : store) :
  existsb (named name) (categories_rows s) = false ->
  exists (id : Z) (s' : store) (before : list Row),
    let created := [("id", VInt id); ("name", VStr name)] in
    add_category name s = (Return created, s')
    /\ get_categories s = (Return before, s)
    /\ get_categories s' = (Return (before ++ [created]), s')
    /\ Forall (fun r => get r "name" <> Some (VStr name)) before
    /\ (categories_rows s = [] -> get_categories s' = (Return [created], s')).
Proof.
  intro Hfresh.
  exists (next_rowid (map category_id (categories_rows s))).
  eexists. exists (map category_row (categories_rows s)).
  cbv zeta. rewrite add_category_store, Hfresh. cbv zeta.
  split; [reflexivity |]. unfold get_categories. rewrite !read_categories_store.
  split; [reflexivity |]. simpl. rewrite map_app. simpl.
  split; [reflexivity |]. split; [now apply fresh_name_not_listed |].
  intro E. rewrite E. reflexivity.
Qed.

Lemma create_then_list_witness :
  exists (id : Z) (s' : store),
    add_category "Electronics" (empty_store false)
    = (Return [("id", VInt id); ("name", VStr "Electronics")], s')
    /\ get_categories s' = (Return [[("id", VInt id); ("name", VStr "Electronics")]], s').
Proof.
  destruct (create_then_list "Electronics" (empty_store false) eq_refl)
    as [id [s' [before [A [_ [_ [_ L]]]]]]].
  exists id, s'. split; [exact A | apply L; reflexivity].
Defined.

(** C9. [write_category] looks at nothing but the absence of the name: for
    every string not already present, the empty string included, it
    inserts the row and returns [{id, name}], and so does [add_category]. *)
Theorem create_accepts_any_fresh_name (name : string) (s : store) :
  existsb (named name) (categories_rows s) = false ->
  let id := next_rowid (map category_id (categories_rows s)) in
  let s' := mk_store (foreign_keys s)
                     (categories_rows s ++ [mk_Category id name])
                     (products_rows s) in
  write_category name s = (Return [("id", VInt id); ("name", VStr name)], s')
  /\ add_category name s = (Return [("id", VInt id); ("name", VStr name)], s').
Proof.
  intros Hfresh id s'.
  rewrite write_category_store, add_category_store, Hfresh. split; reflexivity.
Qed.

(** The empty name, in a store that holds another category. *)
Lemma create_accepts_any_fresh_name_witness :
  let s := mk_store false [mk_Category 1 "Tech"] [] in
  add_category "" s
  = (Return [("id", VInt 2); ("name", VStr "")],
     mk_store false [mk_Category 1 "Tech"; mk_Category 2 ""] []).
Proof.
  intro s.
  exact (proj2 (create_accepts_any_fresh_name "" s eq_refl)).
Defined.

(** C10. A failed [delete_category] leaves the store exactly as it was.  It
    fails when no category bears the name and when the category has a
    referencing product, and whatever the failure, neither table has
    changed. *)
Theorem failed_delete_changes_nothing (name : string) (s : store) :
  (find (named name) (categories_rows s) = None ->
     delete_category name s = (Raise category_missing, s))
  /\ (forall c, find (named name) (categories_rows s) = Some c ->
        existsb (in_category (category_id c)) (products_rows s) = true ->
        delete_category name s = (Raise still_products, s))
  /\ (forall e s', delete_category name s = (Raise e, s') -> s' = s).
Proof.
  rewrite delete_category_store.
  destruct (find (named name) (categories_rows s)) as [c |].
  - split; [discriminate |]. split.
    + intros d [= <-] E. rewrite E. reflexivity.
    + intros e s'. destruct (existsb _ _); [now intros [= _ <-] |].
      destruct (_ && _)%bool; [now intros [= _ <-] | discriminate].
  - split; [reflexivity |]. split; [discriminate | now intros e s' [= _ <-]].
Qed.

Lemma failed_delete_changes_nothing_witness :
  let s := exec [POST_categories "Books";
                 POST_products 739000 "Python Guide" (4999 # 100) "Books"]
                (empty_store true) in
  delete_category "Books" s = (Raise still_products, s)
  /\ delete_category "NonExistent" s = (Raise category_missing, s)
  /\ snd (delete_category "Books" s) = s.
Proof.
  intro s.
  destruct (failed_delete_changes_nothing "Books" s) as [_ [B U]].
  destruct (failed_delete_changes_nothing "NonExistent" s) as [N _].
  split; [| split].
  - apply (B (mk_Category 1 "Books")); reflexivity.
  - apply N. reflexivity.
  - apply (U still_products). apply (B (mk_Category 1 "Books")); reflexivity.
Defined.

Lemma find_named_in (name : string) (cats : list Category) (c : Category) :
  NoDup (map category_name cats) ->
  In c cats -> category_name c = name ->
  find (named name) cats = Some c.
Proof.
  intros Hnd Hin Hname.
  assert (N : named name c = true) by (unfold named; now apply String.eqb_eq).
  destruct (find (named name) cats) as [d |] eqn:F.
  - f_equal. symmetry. eapply named_unique; eassumption.
  - pose proof (find_none _ _ F c Hin). congruence.
Qed.

Lemma find_named_none (name : string) (cats : list Category) :
  ~ (exists c, In c cats /\ category_name c = name) ->
  find (named name) cats = None.
Proof.
  intro H. destruct (find (named name) cats) as [d |] eqn:F; [| reflexivity].
  exfalso. apply H. apply find_some in F. exists d.
  split; [apply F |]. apply String.eqb_eq, F.
Qed.

Lemma unreferenced_name (name : string) (s : store) (c : Category) :
  NoDup (map category_name (categories_rows s)) ->
  find (named name) (categories_rows s) = Some c ->
  existsb (in_category (category_id c)) (products_rows s) = false ->
  name_referenced name s = false.
Proof.
  intros Hnd F E.
  destruct (name_referenced name s) eqn:R; [| reflexivity].
  unfold name_referenced in R. apply existsb_exists in R. destruct R as [p [Hp R]].
  apply existsb_exists in R. destruct R as [d [Hd R]].
  apply andb_true_iff in R. destruct R as [Nd Eid].
  assert (d = c) by (eapply named_unique; eassumption). subst d.
  assert (existsb (in_category (category_id c)) (products_rows s) = true) as T;
    [| congruence].
  apply existsb_exists. exists p. split; [exact Hp |].
  unfold in_category. rewrite Z.eqb_sym. exact Eid.
Qed.

Lemma read_category_traced_store (name : string) (s : store) (log : list call) :
  @read_category _ (traced relational_store) name (s, log)
  = (Return (option_map category_row (find (named name) (categories_rows s))),
     (s, log ++ [FetchOne (where_ (table_select categories)
                                  (eq_ (col categories "name") (VStr name)))])).
Proof. rewrite read_category_traced, read_category_store. reflexivity. Qed.

Lemma check_category_has_products_traced_store (cid : Z) (s : store)
    (log : list call) :
  @check_category_has_products _ (traced relational_store) (VInt cid) (s, log)
  = (Return (existsb (in_category cid) (products_rows s)),
     (s, log ++ [FetchOne (limit (where_ (select [col products "id"])
                                         (eq_ (col products "category_id") (VInt cid)))
                                 1)])).
Proof.
  rewrite check_category_has_products_traced, check_category_has_products_store.
  reflexivity.
Qed.

(** The statements [delete_category] issues against the relational store. *)
Lemma delete_category_traced_store (name : string) (s : store) (log : list call) :
  let by_name := eq_ (col categories "name") (VStr name) in
  let lookup := FetchOne (where_ (table_select categories) by_name) in
  let probe := fun c =>
    FetchOne (limit (where_ (select [col products "id"])
                            (eq_ (col products "category_id") (VInt (category_id c)))) 1) in
  snd (snd (@delete_category _ (traced relational_store) name (s, log)))
  = match find (named name) (categories_rows s) with
    | None => log ++ [lookup]
    | Some c =>
        if existsb (in_category (category_id c)) (products_rows s)
        then log ++ [lookup; probe c]
        else log ++ [lookup; probe c; Execute (where_ (table_delete categories) by_name) []]
    end.
Proof.
  cbv zeta. unfold delete_category.
  run_with read_category_traced_store.
  destruct (find (named name) (categories_rows s)) as [c |]; [| reflexivity].
  cbn [option_map]. rewrite category_row_truthy. cbv iota.
  run_with @getitem_category_id.
  run_with check_category_has_products_traced_store.
  destruct (existsb (in_category (category_id c)) (products_rows s)).
  - cbn. rewrite <- app_assoc. reflexivity.
  - unfold try_except, bind. rewrite purge_category_traced, purge_category_store.
    destruct (foreign_keys s && name_referenced name s)%bool;
      cbn; rewrite <- !app_assoc; reflexivity.
Qed.

(** C2. The decision order of [delete_category], in a store that satisfies
    its constraints, with the statements it issues.  If no category bears
    the name, it fails with the 400 "Category does not exist" after the
    lookup alone.  Otherwise, if a product references the category, it
    fails with the 400 "There are still products in the category", the
    store is unchanged and the statements issued are the lookup and the
    probe: no DELETE.  Otherwise it issues the DELETE after them, answers
    200, and the store has lost that row and nothing else. *)
Theorem delete_category_decision_order (name : string) (s : store) :
  store_ok s = true ->
  let lookup :=
    FetchOne (Select (mk_select None (FromTable categories)
                                [eq_ (col categories "name") (VStr name)]
                                None None)) in
  let probe := fun c =>
    FetchOne (Select (mk_select (Some [col products "id"]) (FromTable products)
                                [eq_ (col products "category_id")
                                     (VInt (category_id c))]
                                None (Some 1%nat))) in
  let delete :=
    Execute (Delete categories [eq_ (col categories "name") (VStr name)]) [] in
  let issued :=
    snd (snd (@delete_category _ (traced relational_store) name (s, []))) in
  (~ (exists c, In c (categories_rows s) /\ category_name c = name) ->
     delete_category name s = (Raise category_missing, s)
     /\ issued = [lookup])
  /\ (forall c, In c (categories_rows s) -> category_name c = name ->
        (referenced s c ->
           delete_category name s = (Raise still_products, s)
           /\ issued = [lookup; probe c])
        /\ (~ referenced s c ->
            issued = [lookup; probe c; delete]
            /\ exists s',
                delete_category name s = (Return (mk_Response HTTP_200_OK), s')
                /\ products_rows s' = products_rows s
                /\ foreign_keys s' = foreign_keys s
                /\ (forall d, In d (categories_rows s') <->
                              In d (categories_rows s) /\ d <> c))).
Proof.
  intros Hok lookup probe delete issued.
  apply store_ok_iff in Hok. destruct Hok as [Hn Hc Hp Hr].
  subst issued. rewrite delete_category_traced_store. cbv zeta.
  split.
  - intro Hnone. rewrite delete_category_store, find_named_none by exact Hnone.
    split; reflexivity.
  - intros c Hin Hname.
    pose proof (find_named_in name _ c Hn Hin Hname) as F.
    split.
    + intros [p [Hpin Hpc]].
      assert (E : existsb (in_category (category_id c)) (products_rows s) = true).
      { apply existsb_exists. exists p. split; [exact Hpin |].
        unfold in_category. now apply Z.eqb_eq. }
      rewrite delete_category_store, F, E. split; reflexivity.
    + intro Hnot.
      assert (E : existsb (in_category (category_id c)) (products_rows s) = false).
      { destruct (existsb _ _) eqn:E; [| reflexivity].
        exfalso. apply Hnot. apply existsb_exists in E. destruct E as [p [Hpin E]].
        exists p. split; [exact Hpin |]. unfold in_category in E.
        now apply Z.eqb_eq. }
      rewrite delete_category_store, F, E.
      rewrite (unreferenced_name name s c Hn F E), andb_false_r.
      split; [reflexivity |].
      eexists. split; [reflexivity |]. simpl.
      split; [reflexivity |]. split; [reflexivity |].
      intro d. rewrite filter_In. split.
      * intros [Hd Nd]. split; [exact Hd |]. intros ->.
        unfold named in Nd. rewrite Hname, String.eqb_refl in Nd. discriminate.
      * intros [Hd Hne]. split; [exact Hd |].
        destruct (named name d) eqn:Nd; [| reflexivity].
        exfalso. apply Hne. eapply named_unique; eassumption.
Qed.

Lemma delete_category_decision_order_witness :
  let s := exec [POST_categories "Appliances"; POST_categories "Tools";
                 POST_products 739000 "Blender" (99 # 1) "Appliances"]
                (empty_store false) in
  delete_category "Garden" s = (Raise category_missing, s)
  /\ delete_category "Appliances" s = (Raise still_products, s)
  /\ exists s', delete_category "Tools" s = (Return (mk_Response HTTP_200_OK), s')
                /\ products_rows s' = products_rows s.
Proof.
  intro s.
  destruct (delete_category_decision_order "Garden" s eq_refl) as [G _].
  destruct (delete_category_decision_order "Appliances" s eq_refl) as [_ A].
  destruct (delete_category_decision_order "Tools" s eq_refl) as [_ T].
  split; [| split].
  - apply G. intros [c [[<- | [<- | []]] E]]; discriminate E.
  - apply (A (mk_Category 1 "Appliances")); [now left | reflexivity |].
    exists (mk_Product 1 "Blender" (99 # 1) 1 739000). split; [now left | reflexivity].
  - destruct (proj2 (T (mk_Category 2 "Tools") (or_intror (or_introl eq_refl)) eq_refl))
      as [_ [s' [D [P _]]]].
    + intros [p [[<- | []] E]]. discriminate E.
    + exists s'. split; [exact D | exact P].
Defined.

Lemma handle_keeps_referenced (r : request) (s : store) (c : Category) :
  NoDup (map category_name (categories_rows s)) ->
  In c (categories_rows s) -> referenced s c ->
  In c (categories_rows (handle r s)).
Proof.
  intros Hn Hin Href. destruct r as [name | name | today name price cname | pid]; simpl.
  - rewrite add_category_store.
    destruct (existsb _ _); simpl; [exact Hin |]. apply in_or_app. now left.
  - now apply delete_category_keeps_referenced.
  - rewrite product_create_store. destruct (find _ _); exact Hin.
  - rewrite product_delete_store. destruct (find _ _); exact Hin.
Qed.

(** The backstop: under enforced foreign keys no single statement breaks
    referential integrity, whatever handler issues it and in whatever
    order statements of different requests reach the store. *)
Lemma execute_keeps_integrity (q : query) (values : Row) (s : store) :
  foreign_keys s = true ->
  referential_integrity s ->
  referential_integrity (snd (execute q values s)).
Proof.
  intros Hfk Hr. destruct q as [st | [|] | [|] w]; simpl.
  - exact Hr.
  - unfold insert_category.
    destruct (missing _); [exact Hr |].
    destruct (get values "name") as [[| | | name |] |]; try exact Hr.
    destruct (existsb _ _); [exact Hr |].
    intros p Hp. destruct (Hr p Hp) as [c [Hc E]].
    exists c. split; [| exact E]. simpl. apply in_or_app. now left.
  - unfold insert_product.
    destruct (_ || _)%bool; [exact Hr |].
    destruct (get values "name") as [[| | | name |] |]; try exact Hr;
      destruct (option_map num_of (get values "price")) as [[price |] |]; try exact Hr;
      destruct (get values "category_id") as [[| cid | | |] |]; try exact Hr;
      destruct (get values "created_at") as [[| | | | day] |]; try exact Hr.
    rewrite Hfk. cbn [andb].
    destruct (existsb _ (categories_rows s)) eqn:E; [| exact Hr].
    cbn [negb]. intros p Hp. simpl in Hp. apply in_app_or in Hp.
    destruct Hp as [Hp | [<- | []]]; [now apply Hr |].
    apply existsb_exists in E. destruct E as [c [Hc E]].
    exists c. split; [exact Hc | now apply Z.eqb_eq].
  - unfold delete_categories.
    destruct (resolve_all _ w) as [conds |]; [| exact Hr].
    rewrite Hfk. cbn [andb].
    destruct (existsb _ (products_rows s)) eqn:E; [exact Hr |].
    intros p Hp. simpl in Hp. destruct (Hr p Hp) as [c [Hc Eid]].
    exists c. split; [| exact Eid]. simpl. apply filter_In. split; [exact Hc |].
    destruct (forallb (holds (category_row c)) conds) eqn:D; [| reflexivity].
    exfalso.
    assert (existsb
              (fun p => existsb
                 (fun c => forallb (holds (category_row c)) conds
                           && (category_id c =? product_category_id p))
                 (categories_rows s))
              (products_rows s) = true) as T; [| congruence].
    apply existsb_exists. exists p. split; [exact Hp |].
    apply existsb_exists. exists c. split; [exact Hc |].
    rewrite D. now apply Z.eqb_eq.
  - unfold delete_products.
    destruct (resolve_all _ w) as [conds |]; [| exact Hr].
    intros p Hp. simpl in Hp. apply filter_In in Hp. apply Hr, Hp.
Qed.

(** C1. Referential integrity, with the requests taken one at a time from
    the empty store, whether or not the store enforces foreign keys.  In
    every reachable state each product's [category_id] is the id of a
    category row; [delete_category] leaves a state with the same property
    and keeps every category that a product references; and so does every
    other request.  When the store enforces foreign keys, every single
    statement keeps the property as well. *)
Theorem referential_integrity_is_invariant (fk : bool) (s : store) :
  reachable fk s ->
  referential_integrity s
  /\ (forall name,
         referential_integrity (snd (delete_category name s))
         /\ (forall c, In c (categories_rows s) -> referenced s c ->
                       In c (categories_rows (snd (delete_category name s)))))
  /\ (forall r c, In c (categories_rows s) -> referenced s c ->
                  In c (categories_rows (handle r s)))
  /\ (foreign_keys s = true ->
      forall q values, referential_integrity (snd (execute q values s))).
Proof.
  intro Hreach. pose proof (reachable_invariant fk s Hreach) as I.
  split; [apply I | split; [| split]].
  - intro name. split.
    + apply (delete_category_invariant name s I).
    + intros c. apply delete_category_keeps_referenced, I.
  - intros r c. apply handle_keeps_referenced, I.
  - intros Hfk q values. apply execute_keeps_integrity; [exact Hfk | apply I].
Qed.

Lemma referential_integrity_is_invariant_witness :
  let s := handle (POST_products 739000 "Blender" (99 # 1) "Appliances")
             (handle (POST_categories "Appliances") (empty_store false)) in
  referential_integrity s
  /\ In (mk_Category 1 "Appliances")
        (categories_rows (snd (delete_category "Appliances" s))).
Proof.
  intro s.
  assert (R : reachable false s) by (do 2 apply reachable_handle; apply reachable_empty).
  destruct (referential_integrity_is_invariant false s R) as [I [D _]].
  split; [exact I |].
  apply (D "Appliances"); [now left |].
  exists (mk_Product 1 "Blender" (99 # 1) 1 739000). split; [now left | reflexivity].
Defined.

(** C4. Product creation on the relational store.  If no category bears
    [category_name] it fails with the 404 "Category does not exist" and the
    store is unchanged: no product row is created.  Otherwise, with [c] the
    category the name resolves to, it appends one product row with a new
    id, the given name and price, [category_id] the id of [c] and
    [created_at] the current date, and returns that product with
    [category_id] and [category_name]. *)
Theorem product_create_resolves_category (today : Z) (name : string) (price : Q)
    (cname : string) (s : store) :
  (~ (exists c, In c (categories_rows s) /\ category_name c = cname) ->
     product_create today name price cname s = (Raise product_category_missing, s))
  /\ (forall c, find (named cname) (categories_rows s) = Some c ->
        exists (id : Z) (created : Row) (s' : store),
          product_create today name price cname s = (Return created, s')
          /\ products_rows s'
             = products_rows s ++ [mk_Product id name price (category_id c) today]
          /\ categories_rows s' = categories_rows s
          /\ ~ In id (map product_id (products_rows s))
          /\ get created "id" = Some (VInt id)
          /\ get created "name" = Some (VStr name)
          /\ get created "price" = Some (VReal price)
          /\ get created "category_id" = Some (VInt (category_id c))
          /\ get created "category_name" = Some (VStr cname)
          /\ get created "created_at" = Some (VDate today)).
Proof.
  split.
  - intro Hnone. rewrite product_create_store, find_named_none by exact Hnone.
    reflexivity.
  - intros c F. rewrite product_create_store, F. cbv zeta.
    do 3 eexists. split; [reflexivity |]. simpl.
    split; [reflexivity |]. split; [reflexivity |].
    split; [apply next_rowid_not_in |].
    repeat (split; [reflexivity |]).
    split; [| reflexivity].
    apply find_some in F. destruct F as [_ N]. unfold named in N.
    apply String.eqb_eq in N. now rewrite N.
Qed.

Lemma product_create_resolves_category_witness :
  let s := handle (POST_categories "Electronics") (empty_store true) in
  product_create 739000 "Camera" (300 # 1) "Missing" s
  = (Raise product_category_missing, s)
  /\ exists id created s',
       product_create 739000 "Smartphone" (99999 # 100) "Electronics" s
       = (Return created, s')
       /\ products_rows s' = [mk_Product id "Smartphone" (99999 # 100) 1 739000]
       /\ get created "category_name" = Some (VStr "Electronics").
Proof.
  intro s. split.
  - apply (proj1 (product_create_resolves_category 739000 "Camera" (300 # 1) "Missing" s)).
    intros [c [[<- | []] E]]. discriminate E.
  - destruct (proj2 (product_create_resolves_category
                       739000 "Smartphone" (99999 # 100) "Electronics" s)
                    (mk_Category 1 "Electronics") eq_refl)
      as [id [created [s' [H [P [_ [_ [_ [_ [_ [_ [N _]]]]]]]]]]]].
    exists id, created, s'. split; [exact H | split; [exact P | exact N]].
Defined.

(** ** Sorting *)

Lemma joined_rows_price (s : store) :
  Forall (fun r => exists q, get r "price" = Some (VReal q)) (joined_rows s).
Proof.
  apply Forall_forall. intros r Hr. unfold joined_rows in Hr.
  apply in_flat_map in Hr. destruct Hr as [p [_ Hr]].
  apply in_map_iff in Hr. destruct Hr as [c [<- _]].
  exists (product_price p). reflexivity.
Qed.

Lemma keyed_sorted_reals (key : string) (le : Q -> Q -> Prop)
    (leb : value * Row -> value * Row -> bool) (l : list (value * Row)) :
  (forall q1 q2 r1 r2, leb (VReal q1, r1) (VReal q2, r2) = true -> le q1 q2) ->
  Forall (fun kr => exists q, fst kr = VReal q /\ get (snd kr) key = Some (VReal q)) l ->
  Sorted (fun x y => is_true (leb x y)) l ->
  column_of key (map snd l) = map (fun q => Some (VReal q)) (map (fun kr => real_of (fst kr)) l)
  /\ Sorted le (map (fun kr => real_of (fst kr)) l).
Proof.
  intros Hle Hall Hsorted. induction l as [| [k r] l IH]; simpl.
  - split; [reflexivity | constructor].
  - inversion Hall as [| ? ? [q [Hk Hget]] Hall']; subst. simpl in Hk, Hget. subst k.
    inversion Hsorted as [| ? ? Hs Hhd]; subst.
    destruct (IH Hall' Hs) as [IHc IHs]. split.
    + unfold column_of in *. simpl. rewrite Hget, IHc. reflexivity.
    + constructor; [exact IHs |].
      destruct l as [| [k2 r2] l]; simpl; constructor.
      inversion Hall' as [| ? ? [q2 [Hk2 _]] _]; subst. simpl in Hk2. subst k2.
      inversion Hhd as [| ? ? Hrel]; subst. simpl. eapply Hle, Hrel.
Qed.

Lemma keyed_rows (key : string) (rows : list Row) (l : list (value * Row)) :
  Forall (fun r => exists q, get r key = Some (VReal q)) rows ->
  Permutation (map (fun r => (sort_key key r, r)) rows) l ->
  Forall (fun kr => exists q, fst kr = VReal q /\ get (snd kr) key = Some (VReal q)) l.
Proof.
  intros Hrows Hperm. apply Forall_forall. intros [k r] Hin.
  apply (Permutation_in _ (Permutation_sym Hperm)) in Hin.
  apply in_map_iff in Hin. destruct Hin as [r' [E Hr']]. injection E as <- <-.
  rewrite Forall_forall in Hrows. destruct (Hrows r' Hr') as [q Hq].
  exists q. unfold sort_key. simpl. rewrite Hq. split; reflexivity.
Qed.

(** ORDER BY on a column of reals gives a monotonic column. *)
Lemma sort_rows_monotonic (key : string) (descending : bool) (rows : list Row) :
  Forall (fun r => exists q, get r key = Some (VReal q)) rows ->
  exists prices : list Q,
    column_of key (sort_rows (Some (key, descending)) rows)
    = map (fun q => Some (VReal q)) prices
    /\ StronglySorted (if descending then (fun x y => (y <= x)%Q) else Qle) prices.
Proof.
  intro Hrows. unfold sort_rows.
  set (keyed := map (fun r => (sort_key key r, r)) rows).
  destruct descending.
  - destruct (keyed_sorted_reals key (fun x y => (y <= x)%Q) KeyDescending.leb
                (SortDescending.sort keyed)) as [Hc Hs].
    + intros q1 q2 r1 r2 H. now apply Qle_bool_iff.
    + apply (keyed_rows key rows); [exact Hrows | apply SortDescending.Permuted_sort].
    + apply SortDescending.Sorted_sort.
    + eexists. split; [exact Hc |].
      apply Sorted_StronglySorted; [| exact Hs].
      intros x y z Hxy Hyz. eapply Qle_trans; eassumption.
  - destruct (keyed_sorted_reals key Qle KeyAscending.leb
                (SortAscending.sort keyed)) as [Hc Hs].
    + intros q1 q2 r1 r2 H. now apply Qle_bool_iff.
    + apply (keyed_rows key rows); [exact Hrows | apply SortAscending.Permuted_sort].
    + apply SortAscending.Sorted_sort.
    + eexists. split; [exact Hc |].
      apply Sorted_StronglySorted; [| exact Hs].
      intros x y z Hxy Hyz. eapply Qle_trans; eassumption.
Qed.

Lemma Forall_filter {A : Type} (P : A -> Prop) (f : A -> bool) (l : list A) :
  Forall P l -> Forall P (filter f l).
Proof.
  rewrite !Forall_forall. intros H x Hx. apply filter_In in Hx. apply H, Hx.
Qed.

Lemma run_select_join_sorted (w : list clause) (conds : list (string * value))
    (descending : bool) (s : store) :
  resolve_all (clause_key FromJoin) w = Some conds ->
  run_select (mk_select None FromJoin w (Some (col products "price", descending)) None) s
  = Return (sort_rows (Some ("price", descending))
                      (filter (fun r => forallb (holds r) conds) (joined_rows s))).
Proof.
  intro H. unfold run_select. cbn [s_from s_where s_columns s_order_by s_limit].
  rewrite H. cbn [resolve_columns resolve_order column_key c_table c_key known
                  product_columns existsb String.eqb Ascii.eqb Bool.eqb orb option_map
                  take source_rows].
  rewrite map_project_all. reflexivity.
Qed.

(** C7. A product listing with sorting requested returns, leaves the store
    as it is, and its prices are monotonic: every price is at least every
    later one when descending is requested, at most every later one when
    ascending is requested; whatever the filters and whatever a listing
    without filters answers.  With products priced 1500, 25 and 59.99 the
    descending listing starts with 1500 and the ascending one with 25. *)
Theorem sorted_listing_is_monotonic :
  (forall (unfiltered_returns_all read_all : bool)
          (select_by_category : option string) (select_by_date : option Z)
          (descending : bool) (s : store),
      exists (rows : list Row) (prices : list Q),
        product_list unfiltered_returns_all read_all select_by_category
                     select_by_date (Some descending) s
        = (Return rows, s)
        /\ column_of "price" rows = map (fun q => Some (VReal q)) prices
        /\ StronglySorted (if descending then (fun x y => (y <= x)%Q) else Qle) prices)
  /\ (forall unfiltered_returns_all : bool,
         let s := exec [POST_categories "Tech";
                        POST_products 739000 "Laptop" (1500 # 1) "Tech";
                        POST_products 739000 "Mouse" (25 # 1) "Tech";
                        POST_products 739000 "Pen" (5999 # 100) "Tech"]
                       (empty_store false) in
         exists expensive_first cheap_first : list Row,
           product_list unfiltered_returns_all true None None (Some true) s
           = (Return expensive_first, s)
           /\ column_of "price" expensive_first
              = [Some (VReal (1500 # 1)); Some (VReal (5999 # 100)); Some (VReal (25 # 1))]
           /\ product_list unfiltered_returns_all true None None (Some false) s
              = (Return cheap_first, s)
           /\ column_of "price" cheap_first
              = [Some (VReal (25 # 1)); Some (VReal (5999 # 100)); Some (VReal (1500 # 1))]).
Proof.
  split.
  - intros all read_all cat day descending s.
    assert (Hjoin : forall w conds,
               resolve_all (clause_key FromJoin) w = Some conds ->
               exists rows prices,
                 (run_select (mk_select None FromJoin w
                                (Some (col products "price", descending)) None) s, s)
                 = (Return rows, s)
                 /\ column_of "price" rows = map (fun q => Some (VReal q)) prices
                 /\ StronglySorted
                      (if descending then (fun x y => (y <= x)%Q) else Qle) prices).
    { intros w conds Hw. rewrite (run_select_join_sorted w conds descending s Hw).
      destruct (sort_rows_monotonic "price" descending
                  (filter (fun r => forallb (holds r) conds) (joined_rows s)))
        as [prices [Hc Hs]].
      - apply Forall_filter, joined_rows_price.
      - eexists. exists prices. split; [reflexivity | split; assumption]. }
    assert (Hnone : exists (rows : list Row) (prices : list Q),
               (@ret store (list Row) [] s) = (Return rows, s)
               /\ column_of "price" rows = map (fun q => Some (VReal q)) prices
               /\ StronglySorted
                    (if descending then (fun x y => (y <= x)%Q) else Qle) prices).
    { exists [], []. split; [reflexivity | split; [reflexivity | constructor]]. }
    unfold product_list.
    destruct read_all, cat as [n |], day as [d |], all;
      cbn [negb andb is_not_None option_map where_opt];
      try exact Hnone;
      (eapply Hjoin; reflexivity).
  - intros all s.
    do 2 eexists. repeat split.
Qed.

(** * Further properties of the category handlers *)

(** ** The text of an exception *)

Lemma lower_app (a b : string) : lower (a ++ b) = (lower a ++ lower b)%string.
Proof. induction a as [| c a IH]; simpl; [| rewrite IH]; reflexivity. Qed.

Lemma lower_app_inv (s a b : string) :
  lower s = (a ++ b)%string ->
  exists s1 s2, s = (s1 ++ s2)%string /\ lower s1 = a /\ lower s2 = b.
Proof.
  revert s. induction a as [| c a IH]; simpl; intros s H.
  - exists EmptyString, s. auto.
  - destruct s as [| d s]; simpl in H; [discriminate |].
    injection H as Hc Hs. destruct (IH s Hs) as [s1 [s2 [E [H1 H2]]]].
    exists (String d s1), s2. simpl. rewrite E, H1, Hc. auto.
Qed.

Lemma prefix_iff (n h : string) :
  String.prefix n h = true <-> exists post, h = (n ++ post)%string.
Proof.
  revert h. induction n as [| c n IH]; intro h.
  - destruct h; simpl; split; eauto.
  - destruct h as [| d h]; simpl.
    + split; [discriminate | intros [post E]; discriminate E].
    + destruct (ascii_dec c d) as [<- | Hne].
      * rewrite IH. split; intros [post E]; exists post; congruence.
      * split; [discriminate | intros [post E]; congruence].
Qed.

(** [needle in hay] holds exactly when [hay] is some text, [needle], some
    text. *)
Lemma contains_iff (n h : string) :
  contains n h = true <-> exists pre post, h = (pre ++ n ++ post)%string.
Proof.
  induction h as [| c h IH]; cbn [contains]; rewrite orb_true_iff, prefix_iff.
  - split.
    + intros [[post E] | H]; [| discriminate]. exists EmptyString, post. exact E.
    + intros [[| d pre] [post E]]; [| discriminate E]. left. exists post. exact E.
  - rewrite IH. split.
    + intros [[post E] | [pre [post E]]].
      * exists EmptyString, post. exact E.
      * exists (String c pre), post. simpl. now rewrite E.
    + intros [[| d pre] [post E]].
      * left. exists post. exact E.
      * right. injection E as _ E. exists pre, post. exact E.
Qed.

(** A lower-case word is found in the lowered text exactly when the text
    holds the word in some letter case. *)
Lemma contains_lower_iff (word text : string) :
  contains word (lower text) = true
  <-> exists pre w post, text = (pre ++ w ++ post)%string /\ lower w = word.
Proof.
  rewrite contains_iff. split.
  - intros [pre' [post' E]].
    apply lower_app_inv in E. destruct E as [pre [rest [E1 [_ E2]]]].
    apply lower_app_inv in E2. destruct E2 as [w [post [E3 [Hw _]]]].
    exists pre, w, post. split; [congruence | exact Hw].
  - intros [pre [w [post [E Hw]]]]. exists (lower pre), (lower post).
    rewrite E, !lower_app, Hw. reflexivity.
Qed.

Lemma add_recognizes_iff (e : exception) :
  add_recognizes e = true
  <-> exists pre w post,
        str e = (pre ++ w ++ post)%string
        /\ (lower w = "unique" \/ lower w = "constraint").
Proof.
  unfold add_recognizes. cbv zeta. rewrite orb_true_iff, !contains_lower_iff.
  split.
  - intros [[pre [w [post [E H]]]] | [pre [w [post [E H]]]]];
      exists pre, w, post; auto.
  - intros [pre [w [post [E [H | H]]]]]; [left | right]; exists pre, w, post; auto.
Qed.

Lemma delete_recognizes_iff (e : exception) :
  delete_recognizes e = true
  <-> exists pre w post,
        str e = (pre ++ w ++ post)%string
        /\ (lower w = "foreign" \/ lower w = "constraint").
Proof.
  unfold delete_recognizes. cbv zeta. rewrite orb_true_iff, !contains_lower_iff.
  split.
  - intros [[pre [w [post [E H]]]] | [pre [w [post [E H]]]]];
      exists pre, w, post; auto.
  - intros [pre [w [post [E [H | H]]]]]; [left | right]; exists pre, w, post; auto.
Qed.

(** X1. Over any database, when the insert raises [e] (other than the 400
    itself), [add_category] answers the 400 "Category already exists"
    exactly when [e] is a [UniqueViolationError] or a
    [sqlite3.IntegrityError] and its text holds "unique" or "constraint"
    in some letter case, anywhere; in every other case it raises [e]
    itself, so an exception of another class passes whatever its text. *)
Theorem add_category_maps_by_class_and_text {St : Type} (db : Database St)
    (name : string) (s s' : St) (e : exception) :
  write_category name s = (Raise e, s') ->
  e <> category_exists ->
  let caught :=
    isinstance e [UniqueViolationError; IntegrityError] = true
    /\ exists pre w post,
         str e = (pre ++ w ++ post)%string
         /\ (lower w = "unique" \/ lower w = "constraint") in
  (add_category name s = (Raise category_exists, s') <-> caught)
  /\ (~ caught -> add_category name s = (Raise e, s')).
Proof.
  intros Hw Hne caught. subst caught.
  rewrite (add_category_on_raise db name s s' e Hw), <- add_recognizes_iff.
  destruct (isinstance e _); destruct (add_recognizes e); simpl; split;
    try (split; [intro H; injection H as H; contradiction | intros [? ?]; discriminate]);
    try (intros _; reflexivity);
    try (split; [auto | reflexivity]).
  intro H. exfalso. apply H. auto.
Qed.

(** A CHECK failure is answered as a duplicate; the same text under another
    class is not. *)
Lemma add_category_maps_by_class_and_text_witness :
  let s := empty_store false in
  let check := Exc IntegrityError "CHECK Constraint failed: name" in
  let other := Exc OperationalError "CHECK Constraint failed: name" in
  @add_category _ (failing_execute check relational_store) "Books" s
  = (Raise category_exists, s)
  /\ @add_category _ (failing_execute other relational_store) "Books" s
     = (Raise other, s).
Proof.
  intros s check other. split.
  - apply (add_category_maps_by_class_and_text
             (failing_execute check relational_store) "Books" s s check eq_refl).
    + discriminate.
    + split; [reflexivity |].
      exists "CHECK ", "Constraint", " failed: name". split; [reflexivity | now right].
  - apply (add_category_maps_by_class_and_text
             (failing_execute other relational_store) "Books" s s other eq_refl).
    + discriminate.
    + intros [H _]. discriminate H.
Defined.

(** X2. Over any database, when the category is found, the probe finds no
    product and the DELETE raises [e] (other than the 400 itself),
    [delete_category] answers the 400 "There are still products in the
    category" exactly when the text of [e] holds "foreign" or "constraint"
    in some letter case, anywhere, whatever the class of [e]; in every
    other case it raises [e] itself. *)
Theorem delete_category_maps_by_text {St : Type} (db : Database St)
    (name : string) (s s1 s2 s' : St) (row : Row) (cid : value) (e : exception) :
  read_category name s = (Return (Some row), s1) ->
  truthy (Some row) = true ->
  get row "id" = Some cid ->
  check_category_has_products cid s1 = (Return false, s2) ->
  purge_category name s2 = (Raise e, s') ->
  e <> still_products ->
  let recognized :=
    exists pre w post,
      str e = (pre ++ w ++ post)%string
      /\ (lower w = "foreign" \/ lower w = "constraint") in
  (delete_category name s = (Raise still_products, s') <-> recognized)
  /\ (~ recognized -> delete_category name s = (Raise e, s')).
Proof.
  intros Hread Htruthy Hid Hcheck Hpurge Hne recognized. subst recognized.
  rewrite (delete_category_reaches_purge db name s s1 s2 row cid
             Hread Htruthy Hid Hcheck), Hpurge, <- delete_recognizes_iff.
  destruct (delete_recognizes e); split.
  - split; reflexivity.
  - intro H. exfalso. apply H. reflexivity.
  - split; [intro H; injection H as H; contradiction | discriminate].
  - reflexivity.
Qed.

(** The DELETE is refused by a foreign-key violation as asyncpg words it, and
    by a lost connection. *)
Lemma delete_category_maps_by_text_witness :
  let s := mk_store false [mk_Category 1 "Books"] [] in
  let violation :=
    Exc ForeignKeyViolationError
        "update or delete on table categories violates foreign key constraint" in
  let lost := Exc (OtherError "ConnectionError") "connection was closed" in
  @delete_category _ (failing_execute violation relational_store) "Books" s
  = (Raise still_products, s)
  /\ @delete_category _ (failing_execute lost relational_store) "Books" s
     = (Raise lost, s).
Proof.
  intros s violation lost. split.
  - apply (delete_category_maps_by_text
             (failing_execute violation relational_store) "Books" s s s s
             (category_row (mk_Category 1 "Books")) (VInt 1) violation);
      try reflexivity; [discriminate |].
    exists "update or delete on table categories violates ", "foreign", " key constraint".
    split; [reflexivity | now left].
  - apply (delete_category_maps_by_text
             (failing_execute lost relational_store) "Books" s s s s
             (category_row (mk_Category 1 "Books")) (VInt 1) lost);
      try reflexivity; [discriminate |].
    intro H. apply (delete_recognizes_iff lost) in H. discriminate H.
Defined.

(** The run of [delete_category] over a logging database, case by case. *)
Lemma delete_category_traced {St : Type} (db : Database St) (name : string)
    (s : St) (log : list call) :
  let lookup :=
    FetchOne (where_ (table_select categories)
                     (eq_ (col categories "name") (VStr name))) in
  let probe := fun cid =>
    FetchOne (limit (where_ (select [col products "id"])
                            (eq_ (col products "category_id") cid)) 1) in
  let delete :=
    Execute (where_ (table_delete categories)
                    (eq_ (col categories "name") (VStr name))) [] in
  @delete_category _ (traced db) name (s, log)
  = match read_category name s with
    | (Raise e, s1) => (Raise e, (s1, log ++ [lookup]))
    | (Return None, s1) => (Raise category_missing, (s1, log ++ [lookup]))
    | (Return (Some row), s1) =>
        if truthy (Some row) then
          match get row "id" with
          | None => (Raise (Exc KeyError "'id'"), (s1, log ++ [lookup]))
          | Some cid =>
              match check_category_has_products cid s1 with
              | (Raise e, s2) => (Raise e, (s2, log ++ [lookup; probe cid]))
              | (Return true, s2) =>
                  (Raise still_products, (s2, log ++ [lookup; probe cid]))
              | (Return false, s2) =>
                  match purge_category name s2 with
                  | (Return _, s3) =>
                      (Return (mk_Response HTTP_200_OK),
                       (s3, log ++ [lookup; probe cid; delete]))
                  | (Raise e, s3) =>
                      (if delete_recognizes e then Raise still_products else Raise e,
                       (s3, log ++ [lookup; probe cid; delete]))
                  end
              end
          end
        else (Raise category_missing, (s1, log ++ [lookup]))
    end.
Proof.
  cbv zeta. unfold delete_category.
  erewrite bind_run by apply read_category_traced.
  destruct (read_category name s) as [[[row |] | e] s1]; cbn [fst snd];
    [| reflexivity | reflexivity].
  destruct (truthy (Some row)); [| reflexivity].
  unfold subscript, getitem. destruct (get row "id") as [cid |]; [| reflexivity].
  erewrite bind_run by reflexivity. cbv beta iota.
  erewrite bind_run by apply check_category_has_products_traced.
  destruct (check_category_has_products cid s1) as [[[|] | e] s2]; cbn [fst snd].
  - cbn. rewrite <- app_assoc. reflexivity.
  - unfold try_except, bind. rewrite purge_category_traced.
    destruct (purge_category name s2) as [[u | e] s3]; cbn [fst snd any_exception].
    + cbn. rewrite <- !app_assoc. reflexivity.
    + fold (delete_recognizes e).
      destruct (delete_recognizes e); cbn; rewrite <- !app_assoc; reflexivity.
  - rewrite <- app_assoc. reflexivity.
Qed.

Lemma delete_category_not_found {St : Type} (db : Database St) (name : string)
    (s s1 : St) :
  read_category name s = (Return None, s1) ->
  delete_category name s = (Raise category_missing, s1).
Proof. intro H. unfold delete_category. run_with H. reflexivity. Qed.

Lemma delete_category_guarded {St : Type} (db : Database St) (name : string)
    (s s1 s2 : St) (row : Row) (cid : value) :
  read_category name s = (Return (Some row), s1) ->
  truthy (Some row) = true ->
  get row "id" = Some cid ->
  check_category_has_products cid s1 = (Return true, s2) ->
  delete_category name s = (Raise still_products, s2).
Proof.
  intros Hread Htruthy Hid Hcheck. unfold delete_category.
  run_with Hread. rewrite Htruthy.
  unfold subscript, getitem. rewrite Hid.
  erewrite bind_run by reflexivity. cbv beta iota.
  run_with Hcheck. reflexivity.
Qed.

(** X3. The guard of [delete_category] over any database.  When the lookup
    returns no record, the handler raises the 400 "Category does not
    exist" and has issued the lookup alone.  When the lookup returns a
    record and the probe answers true, it raises the 400 "There are still
    products in the category" and has issued the lookup and the probe for
    the id of that record, nothing else. *)
Theorem delete_category_guards_any_database {St : Type} (db : Database St)
    (name : string) (s s1 s2 : St) (row : Row) (cid : value) :
  let lookup :=
    FetchOne (Select (mk_select None (FromTable categories)
                                [eq_ (col categories "name") (VStr name)]
                                None None)) in
  let probe :=
    FetchOne (Select (mk_select (Some [col products "id"]) (FromTable products)
                                [eq_ (col products "category_id") cid]
                                None (Some 1%nat))) in
  let issued := snd (snd (@delete_category _ (traced db) name (s, []))) in
  (read_category name s = (Return None, s1) ->
     delete_category name s = (Raise category_missing, s1)
     /\ issued = [lookup])
  /\ (read_category name s = (Return (Some row), s1) ->
      truthy (Some row) = true ->
      get row "id" = Some cid ->
      check_category_has_products cid s1 = (Return true, s2) ->
      delete_category name s = (Raise still_products, s2)
      /\ issued = [lookup; probe]).
Proof.
  cbv zeta. rewrite delete_category_traced. cbv zeta. split.
  - intro Hread. split; [now apply delete_category_not_found |].
    rewrite Hread. reflexivity.
  - intros Hread Htruthy Hid Hcheck.
    split; [eapply delete_category_guarded; eassumption |].
    rewrite Hread, Htruthy, Hid, Hcheck. reflexivity.
Qed.

Lemma delete_category_guards_any_database_witness :
  let s := mk_store false [mk_Category 1 "Books"]
                    [mk_Product 1 "Python Guide" (4999 # 100) 1 739000] in
  delete_category "Films" s = (Raise category_missing, s)
  /\ delete_category "Books" s = (Raise still_products, s).
Proof.
  intro s. split.
  - apply (delete_category_guards_any_database relational_store "Films" s s s
             [] VNone). reflexivity.
  - apply (delete_category_guards_any_database relational_store "Books" s s s
             (category_row (mk_Category 1 "Books")) (VInt 1)); reflexivity.
Defined.

(** X4. Over any database, [delete_category] never writes before its guard
    has passed: if it issues an [execute] at all, the statement is the
    DELETE of the rows of that name, without values, the lookup had
    returned a record and the probe had answered false. *)
Theorem delete_category_writes_only_after_guard {St : Type} (db : Database St)
    (name : string) (s : St) (q : query) (values : Row) :
  In (Execute q values) (snd (snd (@delete_category _ (traced db) name (s, [])))) ->
  q = Delete categories [eq_ (col categories "name") (VStr name)]
  /\ values = []
  /\ exists (row : Row) (s1 : St) (cid : value) (s2 : St),
       read_category name s = (Return (Some row), s1)
       /\ truthy (Some row) = true
       /\ get row "id" = Some cid
       /\ check_category_has_products cid s1 = (Return false, s2).
Proof.
  rewrite delete_category_traced. cbv zeta.
  destruct (read_category name s) as [[[row |] | e] s1] eqn:Hread; cbn [snd];
    try (intros [H | []]; discriminate H).
  destruct (truthy (Some row)) eqn:Htruthy; cbn [snd];
    try (intros [H | []]; discriminate H).
  destruct (get row "id") as [cid |] eqn:Hid; cbn [snd];
    try (intros [H | []]; discriminate H).
  destruct (check_category_has_products cid s1) as [[[|] | e] s2] eqn:Hcheck;
    cbn [snd]; try (intros [H | [H | []]]; discriminate H).
  assert (Hlog : forall issued : list call,
             issued = [FetchOne (where_ (table_select categories)
                                        (eq_ (col categories "name") (VStr name)));
                       FetchOne (limit (where_ (select [col products "id"])
                                               (eq_ (col products "category_id") cid)) 1);
                       Execute (where_ (table_delete categories)
                                       (eq_ (col categories "name") (VStr name))) []] ->
             In (Execute q values) issued ->
             q = Delete categories [eq_ (col categories "name") (VStr name)]
             /\ values = []).
  { intros issued -> [H | [H | [H | []]]]; try discriminate H.
    injection H as <- <-. split; reflexivity. }
  intro Hin.
  assert (q = Delete categories [eq_ (col categories "name") (VStr name)]
          /\ values = []) as [Hq Hv].
  { destruct (purge_category name s2) as [[u | e] s3]; cbn [snd] in Hin;
      eapply Hlog; try exact Hin; reflexivity. }
  split; [exact Hq | split; [exact Hv |]].
  exists row, s1, cid, s2. auto.
Qed.

Lemma delete_category_writes_only_after_guard_witness :
  let s := mk_store true [mk_Category 1 "Tools"] [] in
  exists (row : Row) (s1 : store) (cid : value) (s2 : store),
    read_category "Tools" s = (Return (Some row), s1)
    /\ truthy (Some row) = true
    /\ get row "id" = Some cid
    /\ check_category_has_products cid s1 = (Return false, s2).
Proof.
  intro s.
  refine (proj2 (proj2 (delete_category_writes_only_after_guard relational_store
                          "Tools" s
                          (Delete categories [eq_ (col categories "name") (VStr "Tools")])
                          [] _))).
  right. right. left. reflexivity.
Defined.

(** * Further properties on the relational store *)

Lemma select_leaves_store {A : Type} (q : query) (k : option Row -> A) (s : store) :
  snd (bind (fetch_one q) (fun r => ret (k r)) s) = s.
Proof.
  unfold bind, ret. destruct q as [st | t | t w]; simpl; [| reflexivity | reflexivity].
  destruct (run_select st s); reflexivity.
Qed.

(** X5. The category handlers never touch the products: whatever their
    outcome, [add_category] and [delete_category] leave the products table
    and the foreign-key setting as they were, and the three readers
    ([get_categories], [read_category], [check_category_has_products])
    leave the whole store as it was. *)
Theorem category_handlers_leave_products_alone (name : string) (cid : value)
    (s : store) :
  products_rows (snd (add_category name s)) = products_rows s
  /\ foreign_keys (snd (add_category name s)) = foreign_keys s
  /\ products_rows (snd (delete_category name s)) = products_rows s
  /\ foreign_keys (snd (delete_category name s)) = foreign_keys s
  /\ snd (get_categories s) = s
  /\ snd (read_category name s) = s
  /\ snd (check_category_has_products cid s) = s.
Proof.
  assert (D : forall T (f : store -> T),
             f (snd (delete_category name s)) = f s
             \/ f (snd (delete_category name s))
                = f (mk_store (foreign_keys s)
                       (filter (fun c => negb (named name c)) (categories_rows s))
                       (products_rows s))).
  { intros T f. rewrite delete_category_store.
    destruct (find _ _); [| now left].
    destruct (existsb _ _); [now left |].
    destruct (_ && _)%bool; [now left | now right]. }
  split; [rewrite add_category_store; destruct (existsb _ _); reflexivity |].
  split; [rewrite add_category_store; destruct (existsb _ _); reflexivity |].
  split; [destruct (D _ products_rows) as [E | E]; exact E |].
  split; [destruct (D _ foreign_keys) as [E | E]; exact E |].
  split; [unfold get_categories; rewrite read_categories_store; reflexivity |].
  split; [rewrite read_category_store; reflexivity |].
  apply select_leaves_store.
Qed.


Lemma find_category_listed (name : string) (cats : list Category) :
  match find (named name) cats with
  | Some c => In c cats /\ category_name c = name
  | None => ~ In (Some (VStr name)) (column_of "name" (map category_row cats))
  end.
Proof.
  destruct (find (named name) cats) as [c |] eqn:F.
  - apply find_some in F. split; [apply F | apply String.eqb_eq, F].
  - intro Hin. unfold column_of in Hin. rewrite map_map in Hin.
    apply in_map_iff in Hin. destruct Hin as [c [E Hc]]. simpl in E.
    pose proof (find_none _ _ F c Hc) as N. unfold named in N.
    injection E as E. rewrite E, String.eqb_refl in N. discriminate.
Qed.

(** X7. The lookup agrees with the listing.  [read_category] returns a
    record exactly when the listing of [read_categories] holds a row of
    that name; the record it returns is a row of the listing and bears the
    name asked for. *)
Theorem read_category_agrees_with_listing (name : string) (s : store) :
  exists (rows : list Row) (found : option Row),
    read_categories s = (Return rows, s)
    /\ read_category name s = (Return found, s)
    /\ (found = None <-> ~ In (Some (VStr name)) (column_of "name" rows))
    /\ (forall row, found = Some row ->
          In row rows /\ get row "name" = Some (VStr name)).
Proof.
  exists (map category_row (categories_rows s)).
  exists (option_map category_row (find (named name) (categories_rows s))).
  split; [apply read_categories_store |]. split; [apply read_category_store |].
  pose proof (find_category_listed name (categories_rows s)) as L.
  destruct (find (named name) (categories_rows s)) as [c |]; simpl.
  - destruct L as [Hin Hname]. split.
    + split; [discriminate |]. intro H. exfalso. apply H.
      unfold column_of. rewrite map_map. apply in_map_iff.
      exists c. simpl. split; [now rewrite Hname | exact Hin].
    + intros row [= <-]. split; [now apply in_map |].
      simpl. now rewrite Hname.
  - split; [tauto | discriminate].
Qed.

Lemma find_snoc_fresh (name : string) (cats : list Category) (c : Category) :
  existsb (named name) cats = false ->
  find (named name) (cats ++ [c]) = find (named name) [c].
Proof.
  induction cats as [| d l IH]; simpl; intro E; [reflexivity |].
  apply orb_false_iff in E. destruct E as [Ed El]. rewrite Ed. now apply IH.
Qed.

Lemma filter_snoc_fresh (name : string) (cats : list Category) (c : Category) :
  existsb (named name) cats = false ->
  named name c = true ->
  filter (fun d => negb (named name d)) (cats ++ [c]) = cats.
Proof.
  intros E N. rewrite filter_app. simpl. rewrite N. simpl. rewrite app_nil_r.
  induction cats as [| d l IH]; simpl; [reflexivity |].
  simpl in E. apply orb_false_iff in E. destruct E as [Ed El].
  rewrite Ed. simpl. f_equal. now apply IH.
Qed.

Lemma named_refl (id : Z) (name : string) : named name (mk_Category id name) = true.
Proof. unfold named. simpl. apply String.eqb_refl. Qed.

(** X8. After [add_category], whether it created the row or refused a
    duplicate, the lookup of that name returns a record bearing the name;
    and a second [add_category] of the name is refused and changes
    nothing. *)
Theorem add_category_then_lookup (name : string) (s : store) :
  let s' := snd (add_category name s) in
  (exists id, read_category name s'
              = (Return (Some [("id", VInt id); ("name", VStr name)]), s'))
  /\ add_category name s' = (Raise category_exists, s').
Proof.
  cbv zeta.
  assert (P : existsb (named name) (categories_rows (snd (add_category name s))) = true).
  { rewrite add_category_store.
    destruct (existsb (named name) (categories_rows s)) eqn:E; simpl; [exact E |].
    rewrite existsb_app. simpl. rewrite named_refl. apply orb_true_r. }
  split.
  - rewrite read_category_store.
    destruct (find (named name) _) as [c |] eqn:F.
    + apply find_some in F. destruct F as [_ N]. apply String.eqb_eq in N.
      exists (category_id c). unfold category_row. simpl. now rewrite N.
    + exfalso. apply existsb_exists in P. destruct P as [c [Hc N]].
      pose proof (find_none _ _ F c Hc). congruence.
  - rewrite (add_category_store name (snd (add_category name s))), P. reflexivity.
Qed.

Lemma fresh_category_unreferenced (name : string) (s : store) :
  referential_integrity s ->
  existsb (in_category (next_rowid (map category_id (categories_rows s))))
          (products_rows s) = false.
Proof.
  intro Hr. destruct (existsb _ _) eqn:E; [| reflexivity].
  apply existsb_exists in E. destruct E as [p [Hp E]].
  unfold in_category in E. apply Z.eqb_eq in E.
  destruct (Hr p Hp) as [c [Hc Hid]].
  exfalso. apply (next_rowid_not_in (map category_id (categories_rows s))).
  rewrite <- E, <- Hid. now apply in_map.
Qed.

(** X9. Round trip: in a store that satisfies its constraints, creating a
    category under a fresh name and deleting it at once succeeds and gives
    back exactly the store one started from. *)
Theorem create_then_delete_restores_store (name : string) (s : store) :
  store_ok s = true ->
  existsb (named name) (categories_rows s) = false ->
  delete_category name (snd (add_category name s))
  = (Return (mk_Response HTTP_200_OK), s).
Proof.
  intros Hok Hfresh. apply store_ok_iff in Hok.
  pose proof (add_category_invariant name s Hok) as I'.
  revert I'. rewrite add_category_store, Hfresh. cbv zeta. cbn [snd]. intro I'.
  set (id := next_rowid (map category_id (categories_rows s))) in *.
  assert (F : find (named name) (categories_rows s ++ [mk_Category id name])
              = Some (mk_Category id name)).
  { rewrite find_snoc_fresh by exact Hfresh. simpl. now rewrite named_refl. }
  assert (E : existsb (in_category id) (products_rows s) = false)
    by (apply (fresh_category_unreferenced name), Hok).
  rewrite delete_category_store. cbn [categories_rows products_rows foreign_keys].
  rewrite F. cbn [category_id]. rewrite E.
  rewrite (unreferenced_name name _ (mk_Category id name) (inv_names _ I') F E).
  rewrite andb_false_r, filter_snoc_fresh by (exact Hfresh || apply named_refl).
  destruct s; reflexivity.
Qed.

Lemma create_then_delete_restores_store_witness :
  let s := mk_store true [mk_Category 1 "Tech"]
                    [mk_Product 1 "Laptop" (1500 # 1) 1 739000] in
  delete_category "Books" (snd (add_category "Books" s))
  = (Return (mk_Response HTTP_200_OK), s).
Proof.
  intro s. apply create_then_delete_restores_store; reflexivity.
Defined.

Lemma none_named_after_filter (name : string) (cats : list Category) :
  existsb (named name) (filter (fun c => negb (named name c)) cats) = false.
Proof.
  induction cats as [| c l IH]; simpl; [reflexivity |].
  destruct (named name c) eqn:N; simpl; [exact IH |]. now rewrite N.
Qed.

(** X10. After a successful [delete_category] the name is free: the lookup
    of the name returns no record, a second delete fails with the 400
    "Category does not exist" and changes nothing, and the name can be
    created again. *)
Theorem deleted_name_is_free (name : string) (s s' : store) (r : Response) :
  delete_category name s = (Return r, s') ->
  read_category name s' = (Return None, s')
  /\ delete_category name s' = (Raise category_missing, s')
  /\ exists id s'',
       add_category name s' = (Return [("id", VInt id); ("name", VStr name)], s'').
Proof.
  intro H.
  assert (E : existsb (named name) (categories_rows s') = false).
  { rewrite delete_category_store in H.
    destruct (find _ _); [| discriminate].
    destruct (existsb _ _); [discriminate |].
    destruct (_ && _)%bool; [discriminate |].
    injection H as _ <-. apply none_named_after_filter. }
  assert (F : find (named name) (categories_rows s') = None).
  { destruct (find _ _) as [c |] eqn:F; [| reflexivity].
    apply find_some in F. destruct F as [Hc N].
    assert (existsb (named name) (categories_rows s') = true) as T; [| congruence].
    apply existsb_exists. eauto. }
  split; [rewrite read_category_store, F; reflexivity |].
  split; [rewrite delete_category_store, F; reflexivity |].
  rewrite add_category_store, E. eauto.
Qed.

Lemma deleted_name_is_free_witness :
  let s := mk_store true [mk_Category 1 "Tech"; mk_Category 2 "Tools"]
                    [mk_Product 1 "Laptop" (1500 # 1) 1 739000] in
  let s' := mk_store true [mk_Category 1 "Tech"]
                     [mk_Product 1 "Laptop" (1500 # 1) 1 739000] in
  delete_category "Tools" s' = (Raise category_missing, s')
  /\ read_category "Tools" s' = (Return None, s').
Proof.
  intros s s'.
  destruct (deleted_name_is_free "Tools" s s' (mk_Response HTTP_200_OK) eq_refl)
    as [R [D _]].
  split; [exact D | exact R].
Defined.

Lemma run_categories_invariant (rs : list category_request) (s : store) :
  Invariant s -> Invariant (run_categories rs s).
Proof.
  revert s. induction rs as [| r rs IH]; simpl; intros s I; [exact I |].
  apply IH. destruct r; simpl.
  - now apply add_category_invariant.
  - now apply delete_category_invariant.
Qed.

Lemma NoDup_map_injective {A B : Type} (f : A -> B) (l : list A) :
  (forall x y, f x = f y -> x = y) -> NoDup l -> NoDup (map f l).
Proof.
  intros Hinj H. induction H as [| x l Hx Hl IH]; simpl; constructor; [| exact IH].
  intro Hin. apply in_map_iff in Hin. destruct Hin as [y [E Hy]].
  apply Hinj in E. subst y. contradiction.
Qed.

(** X11. After any run of category creations and deletions from the empty
    store, with or without enforced foreign keys, the listing has no two
    rows with the same id and no two rows with the same name. *)
Theorem category_runs_keep_listing_duplicate_free (fk : bool)
    (rs : list category_request) :
  let s := run_categories rs (empty_store fk) in
  exists rows : list Row,
    get_categories s = (Return rows, s)
    /\ NoDup (column_of "id" rows)
    /\ NoDup (column_of "name" rows).
Proof.
  cbv zeta. set (s := run_categories rs (empty_store fk)).
  assert (I : Invariant s).
  { apply run_categories_invariant. constructor; simpl; try constructor.
    intros p []. }
  exists (map category_row (categories_rows s)).
  split; [apply read_categories_store |].
  unfold column_of. rewrite !map_map. simpl. split.
  - rewrite <- (map_map category_id (fun z => Some (VInt z))).
    apply NoDup_map_injective; [intros x y [= E]; exact E | apply I].
  - rewrite <- (map_map category_name (fun n => Some (VStr n))).
    apply NoDup_map_injective; [intros x y [= E]; exact E | apply I].
Qed.

Lemma name_referenced_tables (name : string) (s t : store) :
  categories_rows t = categories_rows s ->
  products_rows t = products_rows s ->
  name_referenced name t = name_referenced name s.
Proof. intros Hc Hp. unfold name_referenced. now rewrite Hc, Hp. Qed.

(** X12. In a store that satisfies its constraints the guard makes the
    backstop unreachable: [delete_category] gives the same answer and the
    same tables whether or not the store enforces foreign keys, so one
    request at a time the DELETE is never refused. *)
Theorem guard_makes_backstop_unreachable (name : string) (s : store) (fk : bool) :
  store_ok s = true ->
  let t := mk_store fk (categories_rows s) (products_rows s) in
  fst (delete_category name t) = fst (delete_category name s)
  /\ categories_rows (snd (delete_category name t))
     = categories_rows (snd (delete_category name s))
  /\ products_rows (snd (delete_category name t))
     = products_rows (snd (delete_category name s)).
Proof.
  intros Hok t. apply store_ok_iff in Hok. destruct Hok as [Hn _ _ _].
  rewrite !delete_category_store. subst t.
  cbn [categories_rows products_rows foreign_keys].
  destruct (find (named name) (categories_rows s)) as [c |] eqn:F;
    [| repeat split].
  destruct (existsb (in_category (category_id c)) (products_rows s)) eqn:E;
    [repeat split |].
  rewrite (name_referenced_tables name s
             (mk_store fk (categories_rows s) (products_rows s)) eq_refl eq_refl).
  rewrite (unreferenced_name name s c Hn F E), !andb_false_r. repeat split.
Qed.

Lemma guard_makes_backstop_unreachable_witness :
  let s := mk_store false [mk_Category 1 "Tech"; mk_Category 2 "Tools"]
                    [mk_Product 1 "Laptop" (1500 # 1) 1 739000] in
  let t := mk_store true [mk_Category 1 "Tech"; mk_Category 2 "Tools"]
                    [mk_Product 1 "Laptop" (1500 # 1) 1 739000] in
  fst (delete_category "Tools" t) = fst (delete_category "Tools" s)
  /\ fst (delete_category "Tech" t) = fst (delete_category "Tech" s).
Proof.
  intros s t. split.
  - exact (proj1 (guard_makes_backstop_unreachable "Tools" s true eq_refl)).
  - exact (proj1 (guard_makes_backstop_unreachable "Tech" s true eq_refl)).
Defined.

(** * The URLs of the test database *)

Lemma occurs_app (c : ascii) (a b : string) :
  occurs c (a ++ b) = (occurs c a || occurs c b)%bool.
Proof.
  induction a as [| d a IH]; simpl; [reflexivity |].
  rewrite IH. apply orb_assoc.
Qed.

Lemma occurs_replace (old new : ascii) (s : string) :
  old <> new -> occurs old (replace old new s) = false.
Proof.
  intro Hne. induction s as [| c s IH]; simpl; [reflexivity |].
  rewrite IH, orb_false_r. destruct (Ascii.eqb c old) eqn:E.
  - apply Ascii.eqb_neq. congruence.
  - exact E.
Qed.

Lemma length_replace (old new : ascii) (s : string) :
  String.length (replace old new s) = String.length s.
Proof. induction s as [| c s IH]; simpl; [| rewrite IH]; reflexivity. Qed.

Lemma replace_absent (old new : ascii) (s : string) :
  occurs old s = false -> replace old new s = s.
Proof.
  induction s as [| c s IH]; simpl; intro H; [reflexivity |].
  apply orb_false_iff in H. destruct H as [Hc Hs]. rewrite Hc, IH by exact Hs.
  reflexivity.
Qed.

(** X13. The two URLs of the test database name the same file, one through
    the synchronous driver and one through [aiosqlite].  On Windows
    ([os.name] is "nt") neither URL holds a backslash and the path keeps its
    length; a path without a backslash is taken as it is on every system,
    and so is every path on a system other than Windows. *)
Theorem test_database_urls (os_name absolute : string) :
  (exists path,
      SYNC_DB_URL os_name absolute = ("sqlite:///" ++ path)%string
      /\ ASYNC_DB_URL os_name absolute = ("sqlite+aiosqlite:///" ++ path)%string
      /\ String.length path = String.length absolute
      /\ (occurs backslash absolute = false -> path = absolute)
      /\ (os_name <> "nt" -> path = absolute))
  /\ (os_name = "nt" ->
      occurs backslash (SYNC_DB_URL os_name absolute) = false
      /\ occurs backslash (ASYNC_DB_URL os_name absolute) = false).
Proof.
  split.
  - exists (db_path_abs os_name absolute). split; [reflexivity |].
    split; [reflexivity |]. unfold db_path_abs.
    destruct (String.eqb os_name "nt") eqn:E.
    + split; [apply length_replace |]. split; [apply replace_absent |].
      apply String.eqb_eq in E. contradiction.
    + auto.
  - intros ->. unfold SYNC_DB_URL, ASYNC_DB_URL, db_path_abs.
    rewrite String.eqb_refl, !occurs_app, occurs_replace by discriminate.
    split; reflexivity.
Qed.

Lemma test_database_urls_witness :
  let absolute := String "C" (String ":" (String backslash
                    (String "t" (String backslash "test_app.db")))) in
  occurs backslash absolute = true
  /\ occurs backslash (SYNC_DB_URL "nt" absolute) = false
  /\ SYNC_DB_URL "nt" absolute = "sqlite:///C:/t/test_app.db"
  /\ SYNC_DB_URL "posix" "/tmp/test_app.db" = "sqlite:////tmp/test_app.db".
Proof.
  intro absolute.
  destruct (test_database_urls "nt" absolute) as [_ W].
  destruct (test_database_urls "posix" "/tmp/test_app.db")
    as [[path [S [_ [_ [_ P]]]]] _].
  split; [reflexivity |]. split; [apply (W eq_refl) |]. split; [reflexivity |].
  rewrite S, P by discriminate. reflexivity.
Defined.
